(** * Divine Wrath front end: the zero-knowledge claim pipeline

  A shallow embedding of the claim evaluator and proof orchestration of
  [utils/zkProof.ts] (functions [verifyClaimLocally], [generateClaimProof],
  [serializeProof], [deserializeProof]) and of the byte codec of the
  blockchain service ([decimalToBytes32], [g1PointToBytes],
  [g2PointToBytes], [convertSnarkjsProofToContract]).

  Conventions of the embedding.
  - A JavaScript [number] that holds an integer is a [Z]; the grid
    arithmetic of the evaluator only meets integers far below 2^53, where
    double arithmetic is exact.  [Math.floor (x / 3)] is [Z.div] (floor
    division) and [%] is [Z.rem] (the sign follows the dividend).
  - A [bigint] is a [Z]; [&] and [>>] are [Z.land] and [Z.shiftr].
  - A JavaScript string is a [string]: a sequence of code units, here
    below 256.
  - A function that can throw returns a [result]. *)

From Stdlib Require Import ZArith Lia List String Ascii DecimalString.
From stdpp Require Import base option list strings gmap.

Local Open Scope string_scope.
Local Open Scope list_scope.
Local Open Scope Z_scope.

(** ** Host values: exceptions and completion records *)

Module JS.

(** The exceptions the embedded code can raise.  [Error msg] is
    [new Error(msg)]; the others are raised by built-ins. *)
Inductive exn : Type :=
| Error (message : string)
| SyntaxError
| TypeError
| RangeError.

Inductive result (A : Type) : Type :=
| Ok (a : A)
| Throw (e : exn).
Arguments Ok {A} a.
Arguments Throw {A} e.

#[export] Instance result_ret : MRet result := fun A a => Ok a.
#[export] Instance result_bind : MBind result := fun A B k m =>
  match m with
  | Ok a => k a
  | Throw e => Throw e
  end.

(** [o] is a value that may be [undefined]; using [undefined] where the
    built-in needs a value raises [TypeError]. *)
Definition defined {A} (o : option A) : result A :=
  match o with
  | Some a => Ok a
  | None => Throw TypeError
  end.

End JS.
Import JS.

(** ** Built-ins met by the byte codec *)

Module Builtins.

(** [StrWhiteSpaceChar], among the code units below 256: TAB, LF, VT, FF,
    CR, SP and NBSP. *)
Definition is_StrWhiteSpaceChar (c : ascii) : bool :=
  match N_of_ascii c with
  | 9 | 10 | 11 | 12 | 13 | 32 | 160 => true
  | _ => false
  end%N.

Fixpoint trim_start (text : list ascii) : list ascii :=
  match text with
  | c :: rest => if is_StrWhiteSpaceChar c then trim_start rest else text
  | [] => []
  end.

Definition trim (text : list ascii) : list ascii :=
  rev (trim_start (rev (trim_start text))).

(** The value of a digit: 0-9, a-f, A-F. *)
Definition digit_of (c : ascii) : option Z :=
  let n := Z.of_N (N_of_ascii c) in
  if (48 <=? n) && (n <=? 57) then Some (n - 48)
  else if (97 <=? n) && (n <=? 102) then Some (n - 87)
  else if (65 <=? n) && (n <=? 70) then Some (n - 55)
  else None.

Fixpoint digits_value (radix acc : Z) (ds : list ascii) : option Z :=
  match ds with
  | [] => Some acc
  | c :: ds' =>
      match digit_of c with
      | Some d => if d <? radix then digits_value radix (radix * acc + d) ds' else None
      | None => None
      end
  end.

(** One digit at least. *)
Definition parse_digits (radix : Z) (ds : list ascii) : option Z :=
  match ds with
  | [] => None
  | _ => digits_value radix 0 ds
  end.

(** [0x], [0o], [0b] (either case) in front of a [NonDecimalIntegerLiteral]. *)
Definition radix_prefix (c : ascii) (rest : list ascii) : option (Z * list ascii) :=
  if Ascii.eqb c "0" then
    match rest with
    | p :: ds =>
        if Ascii.eqb p "x" || Ascii.eqb p "X" then Some (16, ds)
        else if Ascii.eqb p "o" || Ascii.eqb p "O" then Some (8, ds)
        else if Ascii.eqb p "b" || Ascii.eqb p "B" then Some (2, ds)
        else None
    | [] => None
    end
  else None.

(** [StringToBigInt]: white space is trimmed, the empty text is zero, a
    decimal literal may carry a sign, a literal with a radix prefix may
    not.  [None] is the host's [undefined] (no parse). *)
Definition StringToBigInt (str : string) : option Z :=
  match trim (list_ascii_of_string str) with
  | [] => Some 0
  | c :: rest =>
      if Ascii.eqb c "+" then parse_digits 10 rest
      else if Ascii.eqb c "-" then Z.opp <$> parse_digits 10 rest
      else
        match radix_prefix c rest with
        | Some (radix, ds) => parse_digits radix ds
        | None => parse_digits 10 (c :: rest)
        end
  end.

(** [BigInt(str)] for a string argument. *)
Definition BigInt (str : string) : result Z :=
  match StringToBigInt str with
  | Some n => Ok n
  | None => Throw SyntaxError
  end.

(** [new Uint8Array(n)]: [n] zero bytes. *)
Definition Uint8Array (n : nat) : list Z := replicate n 0.

(** The conversion applied by a store into a [Uint8Array]. *)
Definition ToUint8 (v : Z) : Z := v mod 256.

(** [target.set(source, offset)]: copies [source] into [target], or raises
    [RangeError] when it does not fit. *)
Definition TypedArray_set (target source : list Z) (offset : nat) : result (list Z) :=
  if decide (length source + offset <= length target)%nat then
    Ok (list_inserts offset source target)
  else Throw RangeError.

(** [Buffer.from(uint8array)] copies the bytes. *)
Definition Buffer_from (bytes : list Z) : list Z := bytes.

End Builtins.
Import Builtins.

(** ** The JSON built-in

    Values are the fragment of JavaScript values a proof is made of: [null],
    booleans, strings, arrays and plain objects.  An object is the list of
    its own properties in enumeration order. *)

Module JSON.

#[local] Unset Elimination Schemes.
Inductive json : Type :=
| JNull
| JBool (b : bool)
| JString (s : string)
| JArray (elements : list json)
| JObject (properties : list (string * json)).
#[local] Set Elimination Schemes.

Definition dquote : ascii := "034".
Definition backslash : ascii := "092".

(** *** [JSON.stringify] *)

Definition hex_char (n : N) : ascii :=
  if (n <? 10)%N then ascii_of_N (48 + n) else ascii_of_N (87 + n).

(** [\uXXXX], in lower-case hexadecimal. *)
Definition UnicodeEscape (n : N) : list ascii :=
  [backslash; "u"%char; hex_char (n / 4096 mod 16); hex_char (n / 256 mod 16);
   hex_char (n / 16 mod 16); hex_char (n mod 16)]%N.

Definition quote_code_unit (c : ascii) : list ascii :=
  match N_of_ascii c with
  | 8 => [backslash; "b"%char]
  | 9 => [backslash; "t"%char]
  | 10 => [backslash; "n"%char]
  | 12 => [backslash; "f"%char]
  | 13 => [backslash; "r"%char]
  | 34 => [backslash; dquote]
  | 92 => [backslash; backslash]
  | n => if (n <? 32)%N then UnicodeEscape n else [c]
  end%N.

Definition QuoteJSONString (s : string) : list ascii :=
  dquote :: flat_map quote_code_unit (list_ascii_of_string s) ++ [dquote].

(** The texts of a list joined with commas. *)
Fixpoint join_comma (texts : list (list ascii)) : list ascii :=
  match texts with
  | [] => []
  | [t] => t
  | t :: rest => t ++ ","%char :: join_comma rest
  end.

(** [SerializeJSONProperty] without a replacer and without indentation. *)
Fixpoint SerializeJSONProperty (v : json) : list ascii :=
  match v with
  | JNull => list_ascii_of_string "null"
  | JBool true => list_ascii_of_string "true"
  | JBool false => list_ascii_of_string "false"
  | JString s => QuoteJSONString s
  | JArray elements =>
      "["%char :: join_comma (map SerializeJSONProperty elements) ++ ["]"%char]
  | JObject properties =>
      "{"%char ::
        join_comma
          (map (fun '(k, x) => QuoteJSONString k ++ ":"%char :: SerializeJSONProperty x)
               properties)
        ++ ["}"%char]
  end.

(** The text of one property of an object. *)
Definition member_text (kx : string * json) : list ascii :=
  QuoteJSONString (fst kx) ++ ":"%char :: SerializeJSONProperty (snd kx).

Definition stringify (v : json) : string :=
  string_of_list_ascii (SerializeJSONProperty v).

(** *** [JSON.parse] *)

(** JSON white space: TAB, LF, CR, SP. *)
Definition is_ws (c : ascii) : bool :=
  match N_of_ascii c with
  | 9 | 10 | 13 | 32 => true
  | _ => false
  end%N.

Fixpoint skip_ws (input : list ascii) : list ascii :=
  match input with
  | c :: rest => if is_ws c then skip_ws rest else input
  | [] => []
  end.

Definition hex_value (c : ascii) : option N :=
  let n := N_of_ascii c in
  if (48 <=? n)%N && (n <=? 57)%N then Some (n - 48)%N
  else if (97 <=? n)%N && (n <=? 102)%N then Some (n - 87)%N
  else if (65 <=? n)%N && (n <=? 70)%N then Some (n - 55)%N
  else None.

(** The code unit of [\u h1 h2 h3 h4]; a code unit above 255 has no
    counterpart in [ascii] and is not read. *)
Definition unicode_unescape (h1 h2 h3 h4 : ascii) : option ascii :=
  d1 ← hex_value h1; d2 ← hex_value h2; d3 ← hex_value h3; d4 ← hex_value h4;
  let n := (4096 * d1 + 256 * d2 + 16 * d3 + d4)%N in
  if (n <? 256)%N then Some (ascii_of_N n) else None.

(** The character after a backslash, for the two-character escapes. *)
Definition unescape (e : ascii) : option ascii :=
  if Ascii.eqb e dquote then Some dquote
  else if Ascii.eqb e backslash then Some backslash
  else if Ascii.eqb e "/" then Some "/"%char
  else if Ascii.eqb e "b" then Some "008"%char
  else if Ascii.eqb e "f" then Some "012"%char
  else if Ascii.eqb e "n" then Some "010"%char
  else if Ascii.eqb e "r" then Some "013"%char
  else if Ascii.eqb e "t" then Some "009"%char
  else None.

Definition prepend (c : ascii) (r : option (list ascii * list ascii))
  : option (list ascii * list ascii) :=
  match r with
  | Some (s, rest) => Some (c :: s, rest)
  | None => None
  end.

(** The characters of a string literal after its opening quote, up to and
    with its closing quote; the result is the string and the rest of the
    input. *)
Fixpoint parse_string_chars (input : list ascii) : option (list ascii * list ascii) :=
  match input with
  | [] => None
  | c :: rest =>
      if Ascii.eqb c dquote then Some ([], rest)
      else if Ascii.eqb c backslash then
        match rest with
        | [] => None
        | e :: rest1 =>
            if Ascii.eqb e "u" then
              match rest1 with
              | h1 :: h2 :: h3 :: h4 :: rest2 =>
                  match unicode_unescape h1 h2 h3 h4 with
                  | Some u => prepend u (parse_string_chars rest2)
                  | None => None
                  end
              | _ => None
              end
            else
              match unescape e with
              | Some u => prepend u (parse_string_chars rest1)
              | None => None
              end
        end
      else if (N_of_ascii c <? 32)%N then None
      else prepend c (parse_string_chars rest)
  end.

(** [input] starts with the characters of [word]; the result is what
    follows. *)
Fixpoint expect (word input : list ascii) : option (list ascii) :=
  match word, input with
  | [], _ => Some input
  | w :: word', c :: rest => if Ascii.eqb w c then expect word' rest else None
  | _ :: _, [] => None
  end.

(** *** Objects under construction *)

(** An array index: the canonical decimal text of an integer below
    2^32 - 1.  Such keys are enumerated first, in ascending order. *)
Definition array_index (k : string) : option Z :=
  match list_ascii_of_string k with
  | [] => None
  | c :: rest =>
      if Ascii.eqb c "0" && negb (Nat.eqb (length rest) 0) then None
      else
        match digits_value 10 0 (c :: rest) with
        | Some n => if n <? 2 ^ 32 - 1 then Some n else None
        | None => None
        end
  end.

Fixpoint has_property (k : string) (props : list (string * json)) : bool :=
  match props with
  | [] => false
  | (k', _) :: rest => String.eqb k k' || has_property k rest
  end.

(** Overwrites the value of the property [k], which keeps its place. *)
Fixpoint set_property (k : string) (v : json) (props : list (string * json))
  : list (string * json) :=
  match props with
  | [] => []
  | (k', v') :: rest =>
      if String.eqb k k' then (k', v) :: rest
      else (k', v') :: set_property k v rest
  end.

(** Adds the array index [i] (spelled [k]) in front of the first property
    that is no array index or a larger one. *)
Fixpoint add_index (i : Z) (k : string) (v : json) (props : list (string * json))
  : list (string * json) :=
  match props with
  | [] => [(k, v)]
  | (k', v') :: rest =>
      match array_index k' with
      | Some j => if j <? i then (k', v') :: add_index i k v rest
                  else (k, v) :: props
      | None => (k, v) :: props
      end
  end.

(** [CreateDataProperty (object, k, v)] on the enumeration-ordered list. *)
Definition CreateDataProperty (props : list (string * json)) (k : string) (v : json)
  : list (string * json) :=
  if has_property k props then set_property k v props
  else
    match array_index k with
    | Some i => add_index i k v props
    | None => props ++ [(k, v)]
    end.

(** The object a member list builds, member after member. *)
Definition object_of_members (members : list (string * json)) : list (string * json) :=
  fold_left (fun props '(k, v) => CreateDataProperty props k v) members [].

(** *** The value parser

    [fuel] bounds the nesting of calls; [parse] gives enough of it. *)
Fixpoint parse_value (fuel : nat) (input : list ascii) : option (json * list ascii) :=
  match fuel with
  | O => None
  | S fuel' =>
      match skip_ws input with
      | [] => None
      | c :: rest =>
          if Ascii.eqb c dquote then
            '(s, rest1) ← parse_string_chars rest;
            Some (JString (string_of_list_ascii s), rest1)
          else if Ascii.eqb c "[" then
            match skip_ws rest with
            | [] => None
            | c1 :: rest1 =>
                if Ascii.eqb c1 "]" then Some (JArray [], rest1)
                else
                  '(elements, rest2) ← parse_elements fuel' (c1 :: rest1);
                  Some (JArray elements, rest2)
            end
          else if Ascii.eqb c "{" then
            match skip_ws rest with
            | [] => None
            | c1 :: rest1 =>
                if Ascii.eqb c1 "}" then Some (JObject [], rest1)
                else
                  '(members, rest2) ← parse_members fuel' (c1 :: rest1);
                  Some (JObject (object_of_members members), rest2)
            end
          else if Ascii.eqb c "n" then
            rest1 ← expect (list_ascii_of_string "ull") rest; Some (JNull, rest1)
          else if Ascii.eqb c "t" then
            rest1 ← expect (list_ascii_of_string "rue") rest; Some (JBool true, rest1)
          else if Ascii.eqb c "f" then
            rest1 ← expect (list_ascii_of_string "alse") rest; Some (JBool false, rest1)
          else None
      end
  end
with parse_elements (fuel : nat) (input : list ascii) : option (list json * list ascii) :=
  match fuel with
  | O => None
  | S fuel' =>
      '(v, rest) ← parse_value fuel' input;
      match skip_ws rest with
      | [] => None
      | c :: rest1 =>
          if Ascii.eqb c "," then
            '(vs, rest2) ← parse_elements fuel' rest1;
            Some (v :: vs, rest2)
          else if Ascii.eqb c "]" then Some ([v], rest1)
          else None
      end
  end
with parse_members (fuel : nat) (input : list ascii)
  : option (list (string * json) * list ascii) :=
  match fuel with
  | O => None
  | S fuel' =>
      match skip_ws input with
      | [] => None
      | c :: rest =>
          if Ascii.eqb c dquote then
            '(k, rest1) ← parse_string_chars rest;
            match skip_ws rest1 with
            | [] => None
            | c1 :: rest2 =>
                if Ascii.eqb c1 ":" then
                  '(v, rest3) ← parse_value fuel' rest2;
                  match skip_ws rest3 with
                  | [] => None
                  | c3 :: rest4 =>
                      if Ascii.eqb c3 "," then
                        '(ms, rest5) ← parse_members fuel' rest4;
                        Some ((string_of_list_ascii k, v) :: ms, rest5)
                      else if Ascii.eqb c3 "}" then
                        Some ([(string_of_list_ascii k, v)], rest4)
                      else None
                  end
                else None
            end
          else None
      end
  end.

(** [JSON.parse (text)] without a reviver: one value, with white space
    around it and nothing else.  [None] is [SyntaxError], or a text outside
    the fragment (a number literal, a code unit above 255). *)
Definition parse (text : string) : option json :=
  let input := list_ascii_of_string text in
  match parse_value (2 * length input + 1) input with
  | Some (v, rest) =>
      match skip_ws rest with
      | [] => Some v
      | _ :: _ => None
      end
  | None => None
  end.

(** *** Values the host can hold

    An object has each key once, array indices first: building it again
    property after property gives the same list. *)
#[local] Unset Elimination Schemes.
Inductive well_formed : json -> Prop :=
| wf_null : well_formed JNull
| wf_bool b : well_formed (JBool b)
| wf_string s : well_formed (JString s)
| wf_array elements :
    Forall well_formed elements -> well_formed (JArray elements)
| wf_object properties :
    object_of_members properties = properties ->
    Forall (fun kx => well_formed (snd kx)) properties ->
    well_formed (JObject properties).
#[local] Set Elimination Schemes.

(** The text of [v], whatever follows it, is read back as [v] by the value
    parser as soon as the fuel is twice the length of the text. *)
Definition reads_back (v : json) : Prop :=
  forall rest n,
    (2 * length (SerializeJSONProperty v) <= n)%nat ->
    parse_value n (SerializeJSONProperty v ++ rest) = Some (v, rest).

End JSON.
(** ** The declarations of the snarkjs module *)

Module Snarkjs.

(** [interface Groth16Proof] of the module declaration for snarkjs. *)
Record Groth16Proof : Type := {
  pi_a : list string;
  pi_b : list (list string);
  pi_c : list string;
  protocol : string;
  curve : string
}.

Record FullProveResult : Type := {
  proof : Groth16Proof;
  publicSignals : list string
}.

End Snarkjs.

(** ** utils/zkProof.ts: the claim evaluator *)

Module ZkProof.

(** [type ClaimType = 'row' | 'column' | 'adjacent'].  The type is erased
    at run time: [verifyClaimLocally] receives a string and its [switch]
    has a [default] branch, so the embedding keeps the string. *)
Definition ClaimType := string.

(** [CLAIM_TYPE_MAP]: the numbering of the claim types in the circuit (the
    own properties of the object; a missing key reads as [undefined]). *)
Definition CLAIM_TYPE_MAP : gmap string Z :=
  <["row" := 0]> (<["column" := 1]> (<["adjacent" := 2]> ∅)).

Definition WASM_PATH : string := "/circuits/divine_wrath.wasm".
Definition ZKEY_PATH : string := "/circuits/divine_wrath_final.zkey".

(** [verifyClaimLocally (position, claimType, claimValue)]. *)
Definition verifyClaimLocally
    (position : Z) (claimType : ClaimType) (claimValue : Z) : result bool :=
  if (position <? 1) || (position >? 9) then
    Throw (Error "Position must be between 1 and 9")
  else
    let row := (position - 1) / 3 in
    let col := Z.rem (position - 1) 3 in
    if String.eqb claimType "row" then
      Ok (row =? claimValue)
    else if String.eqb claimType "column" then
      Ok (col =? claimValue)
    else if String.eqb claimType "adjacent" then
      let otherRow := (claimValue - 1) / 3 in
      let otherCol := Z.rem (claimValue - 1) 3 in
      let rowDiff := Z.abs (row - otherRow) in
      let colDiff := Z.abs (col - otherCol) in
      Ok ((rowDiff =? 1) && (colDiff =? 0) || (rowDiff =? 0) && (colDiff =? 1))
    else
      Ok false.

(** *** Proof generation

    The external prover and the console are the two effects of
    [generateClaimProof].  A computation threads the trace of the events
    so far and ends in a value or in an exception. *)

Record CircuitInputs : Type := {
  position : Z;
  claimType : option Z;
  claimValue : Z;
  expectedResult : Z
}.

(** What a call of [console.log] prints after its label. *)
Inductive logged : Type :=
| NoArgs
| ClaimArgs (position : Z) (claimType : ClaimType) (claimValue : Z)
| BoolArg (b : bool)
| InputsArg (inputs : CircuitInputs)
| SignalsArg (publicSignals : list string).

Inductive event : Type :=
| ConsoleLog (label : string) (args : logged)
| FullProve (input : CircuitInputs) (wasmFile zkeyFile : string).

Definition IO (A : Type) : Type := list event -> result A * list event.

#[export] Instance IO_ret : MRet IO := fun A a trace => (Ok a, trace).
#[export] Instance IO_bind : MBind IO := fun A B k m trace =>
  match m trace with
  | (Ok a, trace') => k a trace'
  | (Throw e, trace') => (Throw e, trace')
  end.

Definition console_log (label : string) (args : logged) : IO unit :=
  fun trace => (Ok tt, trace ++ [ConsoleLog label args]).

(** A pure computation that may throw, run inside [IO]. *)
Definition lift {A} (r : result A) : IO A := fun trace => (r, trace).

(** The external prover: what the promise of [snarkjs.groth16.fullProve]
    settles to, a result or a rejection. *)
Definition Prover : Type :=
  CircuitInputs -> string -> string -> result Snarkjs.FullProveResult.

(** [await snarkjs.groth16.fullProve (input, wasmFile, zkeyFile)]. *)
Definition groth16_fullProve (prover : Prover)
    (input : CircuitInputs) (wasmFile zkeyFile : string)
  : IO Snarkjs.FullProveResult :=
  fun trace => (prover input wasmFile zkeyFile,
                trace ++ [FullProve input wasmFile zkeyFile]).

(** The record [generateClaimProof] resolves to. *)
Record ClaimProof : Type := {
  proof : Snarkjs.Groth16Proof;
  publicSignals : list string;
  isTrue : bool
}.

(** [generateClaimProof (position, claimType, claimValue)].  The clock
    readings of [performance.now ()] only feed the text of one log line,
    which is recorded by its template. *)
Definition generateClaimProof (prover : Prover)
    (position : Z) (claimType : ClaimType) (claimValue : Z) : IO ClaimProof :=
  console_log "[ZK] Generating proof for claim:"
    (ClaimArgs position claimType claimValue);;
  isTrue ← lift (verifyClaimLocally position claimType claimValue);
  console_log "[ZK] Local verification result:" (BoolArg isTrue);;
  let inputs := {|
    position := position;
    claimType := CLAIM_TYPE_MAP !! claimType;
    claimValue := claimValue;
    expectedResult := if (isTrue : bool) then 1 else 0
  |} in
  console_log "[ZK] Circuit inputs:" (InputsArg inputs);;
  console_log "[ZK] Generating proof (this may take a few seconds)..." NoArgs;;
  r ← groth16_fullProve prover inputs WASM_PATH ZKEY_PATH;
  console_log "[ZK] Proof generated in ${proofTime}s" NoArgs;;
  console_log "[ZK] Proof generated successfully" NoArgs;;
  console_log "[ZK] Public signals:" (SignalsArg (Snarkjs.publicSignals r));;
  mret {|
    proof := Snarkjs.proof r;
    publicSignals := Snarkjs.publicSignals r;
    isTrue := isTrue
  |}.

(** *** Proof transport *)

(** The JavaScript value a [Groth16Proof] is: an object with the five
    properties of the interface, in the order of its declaration. *)
Definition Groth16Proof_value (p : Snarkjs.Groth16Proof) : JSON.json :=
  JSON.JObject [
    ("pi_a", JSON.JArray (map JSON.JString (Snarkjs.pi_a p)));
    ("pi_b", JSON.JArray
               (map (fun axis => JSON.JArray (map JSON.JString axis)) (Snarkjs.pi_b p)));
    ("pi_c", JSON.JArray (map JSON.JString (Snarkjs.pi_c p)));
    ("protocol", JSON.JString (Snarkjs.protocol p));
    ("curve", JSON.JString (Snarkjs.curve p))
  ].

(** [serializeProof (proof)] is [JSON.stringify (proof)]. *)
Definition serializeProof (proof : JSON.json) : string :=
  JSON.stringify proof.

(** [deserializeProof (serialized)] is [JSON.parse (serialized)]. *)
Definition deserializeProof (serialized : string) : result JSON.json :=
  match JSON.parse serialized with
  | Some v => Ok v
  | None => Throw SyntaxError
  end.

(** A synthetic minimal proof: small coordinates, in the shape the prover
    gives them (three coordinates a point). *)
Definition sample_proof : Snarkjs.Groth16Proof := {|
  Snarkjs.pi_a := ["1"; "2"; "1"];
  Snarkjs.pi_b := [["1"; "2"]; ["3"; "4"]; ["1"; "0"]];
  Snarkjs.pi_c := ["5"; "6"; "1"];
  Snarkjs.protocol := "groth16";
  Snarkjs.curve := "bn128"
|}.

(** The inputs handed to the circuit when the local result is [isTrue]. *)
Definition circuit_inputs (position : Z) (claimType : ClaimType) (claimValue : Z)
    (isTrue : bool) : CircuitInputs := {|
  position := position;
  claimType := CLAIM_TYPE_MAP !! claimType;
  claimValue := claimValue;
  expectedResult := if isTrue then 1 else 0
|}.

(** The events of one successful run of [generateClaimProof], in order. *)
Definition run_events (position : Z) (claimType : ClaimType) (claimValue : Z)
    (isTrue : bool) (r : Snarkjs.FullProveResult) : list event :=
  let inputs := circuit_inputs position claimType claimValue isTrue in
  [ ConsoleLog "[ZK] Generating proof for claim:"
      (ClaimArgs position claimType claimValue);
    ConsoleLog "[ZK] Local verification result:" (BoolArg isTrue);
    ConsoleLog "[ZK] Circuit inputs:" (InputsArg inputs);
    ConsoleLog "[ZK] Generating proof (this may take a few seconds)..." NoArgs;
    FullProve inputs WASM_PATH ZKEY_PATH;
    ConsoleLog "[ZK] Proof generated in ${proofTime}s" NoArgs;
    ConsoleLog "[ZK] Proof generated successfully" NoArgs;
    ConsoleLog "[ZK] Public signals:" (SignalsArg (Snarkjs.publicSignals r)) ].

(** The grid geometry as the data model states it: cells 1..9, row-major. *)
Definition row (pos : Z) : Z := (pos - 1) / 3.
Definition col (pos : Z) : Z := (pos - 1) mod 3.
Definition taxicab (p q : Z) : Z :=
  Z.abs (row p - row q) + Z.abs (col p - col q).

Definition InvalidPosition : exn := Error "Position must be between 1 and 9".

Definition valid_claim_type (claimType : ClaimType) : Prop :=
  claimType = "row" \/ claimType = "column" \/ claimType = "adjacent".

End ZkProof.
Import ZkProof.

(** ** The byte codec of the blockchain service *)

Module Bindings.

(** [interface Groth16Proof] of the contract bindings: three buffers. *)
Record Groth16Proof : Type := {
  a : list Z;
  b : list Z;
  c : list Z
}.

End Bindings.

Module Service.

(** The loop [for (let i = 31; i >= 0; i--)] of [decimalToBytes32], with
    [n] iterations left: the next index is [n - 1]. *)
Fixpoint decimalToBytes32_loop (n : nat) (bytes : list Z) (num : Z) : list Z :=
  match n with
  | O => bytes
  | S i =>
      decimalToBytes32_loop i
        (<[i := ToUint8 (Z.land num 255)]> bytes) (Z.shiftr num 8)
  end.

Definition decimalToBytes32 (decimal : string) : result (list Z) :=
  let bytes := Uint8Array 32 in
  num ← BigInt decimal;
  mret (decimalToBytes32_loop 32 bytes num).

Definition g1PointToBytes (point : list string) : result (list Z) :=
  p0 ← defined (point !! 0%nat);
  x ← decimalToBytes32 p0;
  p1 ← defined (point !! 1%nat);
  y ← decimalToBytes32 p1;
  let result := Uint8Array 64 in
  result ← TypedArray_set result x 0;
  result ← TypedArray_set result y 32;
  mret (Buffer_from result).

Definition g2PointToBytes (point : list (list string)) : result (list Z) :=
  p0 ← defined (point !! 0%nat);
  p00 ← defined (p0 !! 0%nat);
  xReal ← decimalToBytes32 p00;
  p0 ← defined (point !! 0%nat);
  p01 ← defined (p0 !! 1%nat);
  xImag ← decimalToBytes32 p01;
  p1 ← defined (point !! 1%nat);
  p10 ← defined (p1 !! 0%nat);
  yReal ← decimalToBytes32 p10;
  p1 ← defined (point !! 1%nat);
  p11 ← defined (p1 !! 1%nat);
  yImag ← decimalToBytes32 p11;
  let result := Uint8Array 128 in
  result ← TypedArray_set result xImag 0;
  result ← TypedArray_set result xReal 32;
  result ← TypedArray_set result yImag 64;
  result ← TypedArray_set result yReal 96;
  mret (Buffer_from result).

Definition convertSnarkjsProofToContract
    (proof : Snarkjs.Groth16Proof) : result Bindings.Groth16Proof :=
  a ← g1PointToBytes (Snarkjs.pi_a proof);
  b ← g2PointToBytes (Snarkjs.pi_b proof);
  c ← g1PointToBytes (Snarkjs.pi_c proof);
  mret {| Bindings.a := a; Bindings.b := b; Bindings.c := c |}.

(** *** What the codec is specified against *)

(** The value a non-empty string of decimal digits denotes, read by the
    standard library's decimal reader. *)
Definition decimal_value (s : string) : option Z :=
  Z.of_uint <$> NilZero.uint_of_string s.

(** The same value, read digit after digit from the left. *)
Fixpoint uint_fold (acc : Z) (d : Decimal.uint) : Z :=
  match d with
  | Decimal.Nil => acc
  | Decimal.D0 l => uint_fold (10 * acc + 0) l
  | Decimal.D1 l => uint_fold (10 * acc + 1) l
  | Decimal.D2 l => uint_fold (10 * acc + 2) l
  | Decimal.D3 l => uint_fold (10 * acc + 3) l
  | Decimal.D4 l => uint_fold (10 * acc + 4) l
  | Decimal.D5 l => uint_fold (10 * acc + 5) l
  | Decimal.D6 l => uint_fold (10 * acc + 6) l
  | Decimal.D7 l => uint_fold (10 * acc + 7) l
  | Decimal.D8 l => uint_fold (10 * acc + 8) l
  | Decimal.D9 l => uint_fold (10 * acc + 9) l
  end.

(** The [n]-byte big-endian encoding of the low [8 * n] bits of [v]: the
    least significant byte comes last. *)
Fixpoint big_endian (n : nat) (v : Z) : list Z :=
  match n with
  | O => []
  | S k => big_endian k (v / 256) ++ [v mod 256]
  end.

(** The number a byte sequence denotes, most significant byte first. *)
Definition big_endian_value (bytes : list Z) : Z :=
  fold_left (fun acc b => 256 * acc + b) bytes 0.

Definition is_byte (b : Z) : Prop := 0 <= b < 256.

(** A field element as the prover prints it: a non-empty string of
    decimal digits. *)
Definition FieldElement (s : string) : Prop := is_Some (decimal_value s).

(** A G1 point of the prover: [x], [y], and whatever follows (snarkjs adds
    a third, projective coordinate). *)
Definition G1Point (point : list string) : Prop :=
  exists x y tail, point = x :: y :: tail /\ FieldElement x /\ FieldElement y.

(** A G2 point of the prover: each axis a (real, imaginary) pair. *)
Definition G2Point (point : list (list string)) : Prop :=
  exists xReal xImag yReal yImag tail,
    point = [xReal; xImag] :: [yReal; yImag] :: tail
    /\ FieldElement xReal /\ FieldElement xImag
    /\ FieldElement yReal /\ FieldElement yImag.

End Service.
Import Service.


(** ** components/Grid.tsx and the constants of the game *)

Module Grid.

Record Coords : Type := { row : Z; col : Z }.

(** [cellToCoords (cell)]: cell number (1-9) to row and column (0-2). *)
Definition cellToCoords (cell : Z) : Coords :=
  let row := (cell - 1) / 3 in
  let col := Z.rem (cell - 1) 3 in
  {| row := row; col := col |}.

End Grid.

Module Constants.

(** [ADJACENCY_MAP]: the grid adjacency table. *)
Definition ADJACENCY_MAP : gmap Z (list Z) :=
  list_to_map [
    (1, [2; 4]);
    (2, [1; 3; 5]);
    (3, [2; 6]);
    (4, [1; 5; 7]);
    (5, [2; 4; 6; 8]);
    (6, [3; 5; 9]);
    (7, [4; 8]);
    (8, [5; 7; 9]);
    (9, [6; 8])
  ].

End Constants.

(** A character that no integer literal of [BigInt] holds: no digit of any
    radix, no white space, no sign, no radix letter. *)
Definition stray (c : ascii) : bool :=
  match digit_of c with Some _ => false | None => true end
  && negb (is_StrWhiteSpaceChar c)
  && negb (Ascii.eqb c "+") && negb (Ascii.eqb c "-")
  && negb (Ascii.eqb c "x") && negb (Ascii.eqb c "X")
  && negb (Ascii.eqb c "o") && negb (Ascii.eqb c "O").

(** A point of the prover that lacks a coordinate the encoders read. *)
Definition short_G1 (point : list string) : Prop := (length point < 2)%nat.

Definition short_G2 (point : list (list string)) : Prop :=
  (length point < 2)%nat
  \/ exists axis,
       (point !! 0%nat = Some axis \/ point !! 1%nat = Some axis)
       /\ (length axis < 2)%nat.

(** [s] is the decimal text of the field element [v], below 2^256. *)
Definition denotes (s : string) (v : Z) : Prop :=
  decimal_value s = Some v /\ v < 2 ^ 256.

(** No control character: a code unit of 0x20 or more. *)
Definition no_control (c : ascii) : Prop := (32 <=? N_of_ascii c)%N = true.

(** ** utils/zkProof.ts: local verification

    The verification key is a JavaScript value fetched as JSON and kept in
    the module variable [vkCache].  The values of the host are a type
    [Value] with the host's [ToBoolean]; [null_value] is its [null].  A
    computation threads [vkCache] and the trace of events, and ends in a
    value or in an exception. *)

Module ZkVerify.

Definition VK_PATH : string := "/circuits/verification_key.json".

Section Verify.

Context {Value : Type}.
Variable ToBoolean : Value -> bool.

(** What [fetch] resolves to: the fields of the response that are read,
    and what its [json ()] promise settles to. *)
Record Response : Type := {
  ok : bool;
  statusText : string;
  json : result Value
}.

Inductive vevent : Type :=
| Zk (e : event)
| Fetch (url : string)
| ResponseJson
| Groth16Verify (vk : Value) (publicSignals : list string)
    (proof : Snarkjs.Groth16Proof).

Record World : Type := {
  vkCache : Value;
  events : list vevent
}.

Definition Async (A : Type) : Type := World -> result A * World.

#[export] Instance Async_ret : MRet Async := fun A a w => (Ok a, w).
#[export] Instance Async_bind : MBind Async := fun A B k m w =>
  match m w with
  | (Ok a, w') => k a w'
  | (Throw e, w') => (Throw e, w')
  end.

Definition emit (e : vevent) : Async unit :=
  fun w => (Ok tt, {| vkCache := vkCache w; events := events w ++ [e] |}).

Definition throw {A} (e : exn) : Async A := fun w => (Throw e, w).

Definition read_vkCache : Async Value := fun w => (Ok (vkCache w), w).

Definition write_vkCache (v : Value) : Async unit :=
  fun w => (Ok tt, {| vkCache := v; events := events w |}).

(** An external promise: the event is recorded, then the promise settles. *)
Definition await {A} (e : vevent) (settled : result A) : Async A :=
  fun w => (settled, {| vkCache := vkCache w; events := events w ++ [e] |}).

(** A computation of the claim side run here: its events are recorded in
    order. *)
Definition run_zk {A} (m : IO A) : Async A :=
  fun w =>
    let '(r, trace) := m [] in
    (r, {| vkCache := vkCache w; events := events w ++ map Zk trace |}).

(** The host's [fetch] and the external verifier. *)
Definition Fetcher : Type := string -> result Response.
Definition Verifier : Type :=
  Value -> list string -> Snarkjs.Groth16Proof -> result bool.

(** [loadVerificationKey ()]. *)
Definition loadVerificationKey (fetch : Fetcher) : Async Value :=
  cached ← read_vkCache;
  if ToBoolean cached then mret cached
  else
    response ← await (Fetch VK_PATH) (fetch VK_PATH);
    if negb (ok response) then
      throw (Error (String.append "Failed to load verification key: "
                      (statusText response)))
    else
      vk ← await ResponseJson (json response);
      write_vkCache vk;;
      read_vkCache.

(** [verifyProof (proof, publicSignals)]. *)
Definition verifyProof (fetch : Fetcher) (verify : Verifier)
    (proof : Snarkjs.Groth16Proof) (publicSignals : list string) : Async bool :=
  emit (Zk (ConsoleLog "[ZK] Verifying proof..." NoArgs));;
  vk ← loadVerificationKey fetch;
  isValid ← await (Groth16Verify vk publicSignals proof) (verify vk publicSignals proof);
  emit (Zk (ConsoleLog "[ZK] Proof verification result:" (BoolArg isValid)));;
  mret isValid.

(** The record [generateAndVerifyProof] resolves to. *)
Record VerifiedClaimProof : Type := {
  proof : Snarkjs.Groth16Proof;
  publicSignals : list string;
  isTrue : bool;
  verified : bool
}.

(** [generateAndVerifyProof (position, claimType, claimValue)]. *)
Definition generateAndVerifyProof (prover : Prover) (fetch : Fetcher)
    (verify : Verifier) (position : Z) (claimType : ClaimType) (claimValue : Z)
  : Async VerifiedClaimProof :=
  generated ← run_zk (generateClaimProof prover position claimType claimValue);
  verified ← verifyProof fetch verify
               (ZkProof.proof generated) (ZkProof.publicSignals generated);
  mret {|
    proof := ZkProof.proof generated;
    publicSignals := ZkProof.publicSignals generated;
    isTrue := ZkProof.isTrue generated;
    verified := verified
  |}.

(** The events of a verification that finds the key [vk] in the cache and
    gets the verdict [isValid]. *)
Definition cached_verification_events (vk : Value)
    (proof : Snarkjs.Groth16Proof) (publicSignals : list string) (isValid : bool)
  : list vevent :=
  [ Zk (ConsoleLog "[ZK] Verifying proof..." NoArgs);
    Groth16Verify vk publicSignals proof;
    Zk (ConsoleLog "[ZK] Proof verification result:" (BoolArg isValid)) ].


End Verify.

(** [ToBoolean] on the values of the JSON module. *)
Definition truthy (v : JSON.json) : bool :=
  match v with
  | JSON.JNull => false
  | JSON.JBool b => b
  | JSON.JString s => negb (String.eqb s "")
  | JSON.JArray _ => true
  | JSON.JObject _ => true
  end.

(** A small verification key, a response that carries it, and one that
    reports a missing file. *)
Definition sample_vk : JSON.json :=
  JSON.JObject [("protocol", JSON.JString "groth16"); ("curve", JSON.JString "bn128")].


Definition not_found_response : @Response JSON.json :=
  {| ok := false; statusText := "Not Found"; json := Throw SyntaxError |}.

End ZkVerify.

(** ** The blockchain service: its methods

    The contract client, the ledger helper and the relayer are external.
    What their promises settle to is given by a [Host]; the service's own
    steps are recorded as events.  The module variable [serviceInstance]
    and the trace are threaded through a computation. *)

Module Chain.

(** [CLAIM_TYPE_MAP] of the service: claim types as the contract numbers
    them. *)
Definition CLAIM_TYPE_MAP : gmap string Z :=
  <["row" := 0]> (<["column" := 1]> (<["adjacent" := 2]> ∅)).

Section Service.

(** Transactions, signers, method options and the contract's data are
    opaque to the service. *)
Context {Tx Signer MethodOptions Game Claims : Type}.

(** What the contract answers: [Result<T>] of the SDK. *)
Inductive ContractResult (A : Type) : Type :=
| ROk (value : A)
| RErr.
Arguments ROk {A} value.
Arguments RErr {A}.

(** The options a client is built with. *)
Record ClientOptions : Type := {
  contractId : string;
  networkPassphrase : string;
  rpcUrl : string;
  publicKey : option string;
  signer : option Signer
}.

(** A method of the contract client with its arguments. *)
Inductive Method : Type :=
| call_get_game (session_id : Z)
| call_get_claims (session_id : Z)
| call_start_game (session_id : Z) (god : string) (mortals : list string)
| call_submit_claim (session_id : Z) (mortal : string) (claim_type : option Z)
    (claim_value : Z) (expected_result : bool) (proof : Bindings.Groth16Proof)
| call_submit_claim_relayed (session_id : Z) (mortal : string)
    (claim_type : option Z) (claim_value : Z) (expected_result : bool)
    (proof : Bindings.Groth16Proof)
| call_attack (session_id : Z) (cell : Z) (hit_mortal : option string).

Inductive cevent : Type :=
| NewClient (options : ClientOptions)
| Invoke (client : ClientOptions) (method : Method) (options : option MethodOptions)
| Simulate (tx : Tx)
| CalculateValidUntilLedger (rpcUrl : string) (ttlMinutes : Z)
| SignAndSend (tx : Tx) (timeoutInSeconds : Z) (validUntilLedger : Z)
| Log (label : string).

(** The constants of [utils/constants] and the external operations. *)
Record Host : Type := {
  NETWORK_PASSPHRASE : string;
  RPC_URL : string;
  DEFAULT_METHOD_OPTIONS : MethodOptions;
  timeoutInSeconds : MethodOptions -> Z;
  DEFAULT_AUTH_TTL_MINUTES : Z;
  invoke : ClientOptions -> Method -> option MethodOptions -> result Tx;
  simulate_game : Tx -> result (ContractResult Game);
  simulate_claims : Tx -> result (ContractResult Claims);
  calculateValidUntilLedger : string -> Z -> result Z;
  signAndSendViaLaunchtube : Tx -> Z -> Z -> result (ContractResult bool)
}.

(** [class DivineWrathBlockchainService]: its two private fields. *)
Record DivineWrathBlockchainService : Type := {
  baseClient : ClientOptions;
  service_contractId : string
}.

Record World : Type := {
  serviceInstance : option DivineWrathBlockchainService;
  trace : list cevent
}.

Definition Run (A : Type) : Type := World -> result A * World.

#[export] Instance Run_ret : MRet Run := fun A a w => (Ok a, w).
#[export] Instance Run_bind : MBind Run := fun A B k m w =>
  match m w with
  | (Ok a, w') => k a w'
  | (Throw e, w') => (Throw e, w')
  end.

Definition emit (e : cevent) : Run unit :=
  fun w => (Ok tt, {| serviceInstance := serviceInstance w; trace := trace w ++ [e] |}).

Definition throw {A} (e : exn) : Run A := fun w => (Throw e, w).

(** A pure computation that may throw. *)
Definition lift {A} (r : result A) : Run A := fun w => (r, w).

Definition read_serviceInstance : Run (option DivineWrathBlockchainService) :=
  fun w => (Ok (serviceInstance w), w).

Definition write_serviceInstance (instance : option DivineWrathBlockchainService)
  : Run unit :=
  fun w => (Ok tt, {| serviceInstance := instance; trace := trace w |}).

Definition await {A} (e : cevent) (settled : result A) : Run A :=
  fun w => (settled, {| serviceInstance := serviceInstance w; trace := trace w ++ [e] |}).

(** [try { body } catch (err) { handler }]. *)
Definition try_catch {A} (body : Run A) (handler : exn -> Run A) : Run A :=
  fun w =>
    match body w with
    | (Ok a, w') => (Ok a, w')
    | (Throw e, w') => handler e w'
    end.

Variable host : Host.

(** [new DivineWrathClient (options)]. *)
Definition new_client (options : ClientOptions) : Run ClientOptions :=
  emit (NewClient options);; mret options.

(** The constructor of the service. *)
Definition new_service (contractId : string) : Run DivineWrathBlockchainService :=
  client ← new_client {|
    contractId := contractId;
    networkPassphrase := NETWORK_PASSPHRASE host;
    rpcUrl := RPC_URL host;
    publicKey := None;
    signer := None
  |};
  mret {| baseClient := client; service_contractId := contractId |}.

Definition createSigningClient (this : DivineWrathBlockchainService)
    (publicKey : string) (signer : Signer) : Run ClientOptions :=
  new_client {|
    contractId := service_contractId this;
    networkPassphrase := NETWORK_PASSPHRASE host;
    rpcUrl := RPC_URL host;
    publicKey := Some publicKey;
    signer := Some signer
  |}.

(** [getGame (sessionId)]: [None] is [null]. *)
Definition getGame (this : DivineWrathBlockchainService) (sessionId : Z)
  : Run (option Game) :=
  try_catch
    (tx ← await (Invoke (baseClient this) (call_get_game sessionId) None)
           (invoke host (baseClient this) (call_get_game sessionId) None);
     result ← await (Simulate tx) (simulate_game host tx);
     match result with
     | ROk game => mret (Some game)
     | RErr => mret None
     end)
    (fun err => emit (Log "[getGame] Error:");; mret None).

(** [getClaims (sessionId)]. *)
Definition getClaims (this : DivineWrathBlockchainService) (sessionId : Z)
  : Run (option Claims) :=
  try_catch
    (tx ← await (Invoke (baseClient this) (call_get_claims sessionId) None)
           (invoke host (baseClient this) (call_get_claims sessionId) None);
     result ← await (Simulate tx) (simulate_claims host tx);
     match result with
     | ROk claims => mret (Some claims)
     | RErr => mret None
     end)
    (fun err => emit (Log "[getClaims] Error:");; mret None).

(** The three steps every signed call ends with: build the transaction,
    ask for the ledger bound, sign and send. *)
Definition send (client : ClientOptions) (method : Method)
  : Run (ContractResult bool) :=
  tx ← await (Invoke client method (Some (DEFAULT_METHOD_OPTIONS host)))
         (invoke host client method (Some (DEFAULT_METHOD_OPTIONS host)));
  validUntilLedger ←
    await (CalculateValidUntilLedger (RPC_URL host) (DEFAULT_AUTH_TTL_MINUTES host))
      (calculateValidUntilLedger host (RPC_URL host) (DEFAULT_AUTH_TTL_MINUTES host));
  await (SignAndSend tx (timeoutInSeconds host (DEFAULT_METHOD_OPTIONS host))
           validUntilLedger)
    (signAndSendViaLaunchtube host tx
       (timeoutInSeconds host (DEFAULT_METHOD_OPTIONS host)) validUntilLedger).

(** [startGame (sessionId, godAddress, mortalAddresses, callerAddress, signer)]. *)
Definition startGame (this : DivineWrathBlockchainService) (sessionId : Z)
    (godAddress : string) (mortalAddresses : list string)
    (callerAddress : string) (signer : Signer) : Run unit :=
  if negb (Nat.eqb (length mortalAddresses) 3) then
    throw (Error "Exactly 3 mortals required")
  else
    client ← createSigningClient this callerAddress signer;
    send client (call_start_game sessionId godAddress mortalAddresses);;
    mret tt.

(** [submitClaim (sessionId, mortalAddress, claimType, claimValue,
    expectedResult, snarkjsProof, signer)]. *)
Definition submitClaim (this : DivineWrathBlockchainService) (sessionId : Z)
    (mortalAddress : string) (claimType : string) (claimValue : Z)
    (expectedResult : bool) (snarkjsProof : Snarkjs.Groth16Proof)
    (signer : Signer) : Run bool :=
  client ← createSigningClient this mortalAddress signer;
  proof ← lift (convertSnarkjsProofToContract snarkjsProof);
  sentTx ← send client
             (call_submit_claim sessionId mortalAddress (CLAIM_TYPE_MAP !! claimType)
                claimValue expectedResult proof);
  match sentTx with
  | ROk value => mret value
  | RErr => throw (Error "Claim rejected: invalid proof")
  end.

(** [attack (sessionId, godAddress, cell, hitMortal, signer)]. *)
Definition attack (this : DivineWrathBlockchainService) (sessionId : Z)
    (godAddress : string) (cell : Z) (hitMortal : option string)
    (signer : Signer) : Run bool :=
  if (cell <? 1) || (cell >? 9) then
    throw (Error "Cell must be between 1 and 9")
  else
    client ← createSigningClient this godAddress signer;
    sentTx ← send client (call_attack sessionId cell hitMortal);
    match sentTx with
    | ROk value => mret value
    | RErr => throw (Error "Attack failed")
    end.

(** [submitClaimRelayed (sessionId, mortalAddress, claimType, claimValue,
    expectedResult, snarkjsProof, adminAddress, adminSigner)]. *)
Definition submitClaimRelayed (this : DivineWrathBlockchainService) (sessionId : Z)
    (mortalAddress : string) (claimType : string) (claimValue : Z)
    (expectedResult : bool) (snarkjsProof : Snarkjs.Groth16Proof)
    (adminAddress : string) (adminSigner : Signer) : Run bool :=
  client ← createSigningClient this adminAddress adminSigner;
  proof ← lift (convertSnarkjsProofToContract snarkjsProof);
  sentTx ← send client
             (call_submit_claim_relayed sessionId mortalAddress
                (CLAIM_TYPE_MAP !! claimType) claimValue expectedResult proof);
  match sentTx with
  | ROk value => mret value
  | RErr => throw (Error "Claim rejected: invalid proof")
  end.

(** [getDivineWrathBlockchainService (contractId)]. *)
Definition getDivineWrathBlockchainService (contractId : string)
  : Run DivineWrathBlockchainService :=
  let renew :=
    fresh ← new_service contractId;
    write_serviceInstance (Some fresh);;
    mret fresh in
  current ← read_serviceInstance;
  match current with
  | Some instance =>
      if negb (String.eqb (service_contractId instance) contractId) then renew
      else mret instance
  | None => renew
  end.



(** An event in which a transaction is built, simulated or sent. *)
Definition touches_chain (e : cevent) : bool :=
  match e with
  | Invoke _ _ _ | Simulate _ | SignAndSend _ _ _ => true
  | _ => false
  end.

End Service.

Arguments ROk {A} value.
Arguments RErr {A}.

(** A host whose every operation succeeds, a service and an empty world. *)
Definition sample_host : @Host string unit unit unit unit := {|
  NETWORK_PASSPHRASE := "Test SDF Network ; September 2015";
  RPC_URL := "https://rpc.example";
  DEFAULT_METHOD_OPTIONS := tt;
  timeoutInSeconds := fun _ => 30;
  DEFAULT_AUTH_TTL_MINUTES := 5;
  invoke := fun _ _ _ => Ok "tx";
  simulate_game := fun _ => Ok (ROk tt);
  simulate_claims := fun _ => Ok (ROk tt);
  calculateValidUntilLedger := fun _ _ => Ok 1000;
  signAndSendViaLaunchtube := fun _ _ _ => Ok (ROk true)
|}.

Definition sample_service : @DivineWrathBlockchainService unit := {|
  baseClient := {| contractId := "C1"; networkPassphrase := "Test SDF Network ; September 2015";
                   rpcUrl := "https://rpc.example"; publicKey := None; signer := None |};
  service_contractId := "C1"
|}.

Definition empty_world : @World string unit unit :=
  {| serviceInstance := None; trace := [] |}.

End Chain.

(** ** The claim helpers of the constants file *)

Module ClaimList.

(** A claim value is [number | boolean]. *)
Inductive ClaimValue : Type :=
| NumberValue (n : Z)
| BooleanValue (b : bool).

(** [===] on claim values: a number never equals a boolean. *)
Definition strict_equal (v w : ClaimValue) : bool :=
  match v, w with
  | NumberValue n, NumberValue m => n =? m
  | BooleanValue a, BooleanValue b => Bool.eqb a b
  | _, _ => false
  end.

(** The fields of a claim that [isClaimTaken] reads. *)
Record Claim : Type := {
  targetPlayerId : string;
  claimType : string;
  claimValue : ClaimValue
}.

(** [isClaimTaken (claims, targetPlayerId, claimType, claimValue)]. *)
Definition isClaimTaken (claims : list Claim) (targetPlayerId : string)
    (claimType : string) (claimValue : ClaimValue) : bool :=
  existsb
    (fun c =>
       String.eqb (ClaimList.targetPlayerId c) targetPlayerId
       && String.eqb (ClaimList.claimType c) claimType
       && strict_equal (ClaimList.claimValue c) claimValue)
    claims.

End ClaimList.
(** ** Properties of the claim evaluator *)

Section Evaluator.

Implicit Types p q v : Z.

Lemma position_guard_passes p :
  1 <= p <= 9 -> (p <? 1) || (p >? 9) = false.
Proof. intros Hp. apply orb_false_iff. split; lia. Qed.

Lemma rem_is_mod_on_grid p : 1 <= p -> Z.rem (p - 1) 3 = (p - 1) mod 3.
Proof. intros Hp. apply Z.rem_mod_nonneg; lia. Qed.

(** Two natural differences pick out "one step along one axis" exactly
    when they add up to one. *)
Lemma one_step_iff_sum a b :
  0 <= a -> 0 <= b ->
  ((a =? 1) && (b =? 0) || (a =? 0) && (b =? 1)) = (a + b =? 1).
Proof.
  intros Ha Hb.
  destruct (a =? 1) eqn:Ea1, (b =? 0) eqn:Eb0,
           (a =? 0) eqn:Ea0, (b =? 1) eqn:Eb1, (a + b =? 1) eqn:Es;
    simpl; try reflexivity; lia.
Qed.

Lemma adjacent_any p v :
  1 <= p <= 9 ->
  verifyClaimLocally p "adjacent" v =
    Ok (Z.abs (row p - (v - 1) / 3) + Z.abs (col p - Z.rem (v - 1) 3) =? 1).
Proof.
  intros Hp. unfold verifyClaimLocally.
  rewrite (position_guard_passes p Hp). simpl.
  rewrite rem_is_mod_on_grid by lia.
  rewrite one_step_iff_sum by apply Z.abs_nonneg.
  reflexivity.
Qed.



Lemma Zeqb_bool_decide (x y : Z) : (x =? y) = bool_decide (x = y).
Proof.
  destruct (Z.eqb_spec x y) as [E | E].
  - symmetry. now apply bool_decide_eq_true.
  - symmetry. now apply bool_decide_eq_false.
Qed.

Lemma row_claim p v :
  1 <= p <= 9 -> verifyClaimLocally p "row" v = Ok (bool_decide (row p = v)).
Proof.
  intros Hp. unfold verifyClaimLocally.
  rewrite (position_guard_passes p Hp). simpl.
  now rewrite Zeqb_bool_decide.
Qed.

Lemma column_claim p v :
  1 <= p <= 9 -> verifyClaimLocally p "column" v = Ok (bool_decide (col p = v)).
Proof.
  intros Hp. unfold verifyClaimLocally.
  rewrite (position_guard_passes p Hp). simpl.
  rewrite rem_is_mod_on_grid by lia.
  now rewrite Zeqb_bool_decide.
Qed.

Lemma out_of_grid_throws p ct v :
  p < 1 \/ 9 < p -> verifyClaimLocally p ct v = Throw InvalidPosition.
Proof.
  intros Hp. unfold verifyClaimLocally.
  replace ((p <? 1) || (p >? 9)) with true; [reflexivity |].
  symmetry. apply orb_true_iff. destruct Hp; [left | right]; lia.
Qed.

Lemma on_grid_returns p ct v :
  1 <= p <= 9 -> exists b, verifyClaimLocally p ct v = Ok b.
Proof.
  intros Hp. unfold verifyClaimLocally.
  rewrite (position_guard_passes p Hp).
  destruct (String.eqb ct "row"); [eauto |].
  destruct (String.eqb ct "column"); [eauto |].
  destruct (String.eqb ct "adjacent"); eauto.
Qed.

(** C3: for every position [p] and claim value [q] on the grid, the
    adjacent claim evaluates to true exactly when the taxicab distance
    |row p - row q| + |col p - col q| is 1; a diagonal neighbour gives
    false; position 5 is adjacent to cell 2 and not to cell 1. *)
Theorem adjacent_iff_taxicab_one p q :
  1 <= p <= 9 -> 1 <= q <= 9 ->
  verifyClaimLocally p "adjacent" q = Ok (bool_decide (taxicab p q = 1))
  /\ (Z.abs (row p - row q) = 1 -> Z.abs (col p - col q) = 1 ->
      verifyClaimLocally p "adjacent" q = Ok false)
  /\ verifyClaimLocally 5 "adjacent" 2 = Ok true
  /\ verifyClaimLocally 5 "adjacent" 1 = Ok false.
Proof.
  intros Hp Hq.
  assert (E : verifyClaimLocally p "adjacent" q = Ok (bool_decide (taxicab p q = 1))).
  { rewrite adjacent_any by assumption.
    rewrite rem_is_mod_on_grid by lia.
    now rewrite Zeqb_bool_decide. }
  split; [exact E |]. split; [| split; reflexivity].
  intros Hr Hc. rewrite E. f_equal.
  apply bool_decide_eq_false. unfold taxicab. lia.
Qed.

Lemma adjacent_iff_taxicab_one_witness :
  1 <= 6 <= 9 /\ 1 <= 9 <= 9 /\
  verifyClaimLocally 6 "adjacent" 9 = Ok (bool_decide (taxicab 6 9 = 1)).
Proof.
  split; [lia |]. split; [lia |].
  apply (adjacent_iff_taxicab_one 6 9); lia.
Defined.

(** C4: for every position [p] on the grid and claim value [v] in 0..2, the
    row claim is true exactly when floor ((p - 1) / 3) = v and the column
    claim exactly when (p - 1) mod 3 = v; position 5 is in row 1 and not in
    row 0. *)
Theorem row_column_iff_index p v :
  1 <= p <= 9 -> 0 <= v <= 2 ->
  verifyClaimLocally p "row" v = Ok (bool_decide ((p - 1) / 3 = v))
  /\ verifyClaimLocally p "column" v = Ok (bool_decide ((p - 1) mod 3 = v))
  /\ verifyClaimLocally 5 "row" 1 = Ok true
  /\ verifyClaimLocally 5 "row" 0 = Ok false.
Proof.
  intros Hp _. split; [now apply row_claim |].
  split; [now apply column_claim |]. split; reflexivity.
Qed.

Lemma row_column_iff_index_witness :
  1 <= 8 <= 9 /\ 0 <= 2 <= 2 /\
  verifyClaimLocally 8 "row" 2 = Ok (bool_decide ((8 - 1) / 3 = 2)) /\
  verifyClaimLocally 8 "column" 2 = Ok (bool_decide ((8 - 1) mod 3 = 2)).
Proof.
  split; [lia |]. split; [lia |].
  split; apply (row_column_iff_index 8 2); lia.
Defined.

(** C5, as the specification states it, fails: with a claim type outside
    the enumeration the evaluator returns a boolean.  At position 5 with
    the claim type [diagonal] it returns false and raises nothing. *)
Lemma unknown_claim_type_does_not_fail :
  1 <= 5 <= 9 /\ ~ valid_claim_type "diagonal"
  /\ verifyClaimLocally 5 "diagonal" 1 = Ok false
  /\ ~ (exists e, verifyClaimLocally 5 "diagonal" 1 = Throw e).
Proof.
  split; [lia |]. split.
  - unfold valid_claim_type. intros [H | [H | H]]; discriminate H.
  - split; [reflexivity |]. intros [e H]. discriminate H.
Qed.

(** C5, amended: for every position on the grid and every claim value, a
    claim type that is none of [row], [column], [adjacent] takes the
    default branch: the evaluator returns false and raises no error. *)
Theorem unknown_claim_type_is_false p ct v :
  1 <= p <= 9 -> ~ valid_claim_type ct ->
  verifyClaimLocally p ct v = Ok false.
Proof.
  intros Hp Hct. unfold verifyClaimLocally.
  rewrite (position_guard_passes p Hp).
  destruct (String.eqb_spec ct "row") as [E | _].
  { exfalso. apply Hct. now left. }
  destruct (String.eqb_spec ct "column") as [E | _].
  { exfalso. apply Hct. right. now left. }
  destruct (String.eqb_spec ct "adjacent") as [E | _].
  { exfalso. apply Hct. right. now right. }
  reflexivity.
Qed.

Lemma unknown_claim_type_is_false_witness :
  1 <= 9 <= 9 /\ ~ valid_claim_type "Row"
  /\ verifyClaimLocally 9 "Row" 2 = Ok false.
Proof.
  assert (H : ~ valid_claim_type "Row").
  { unfold valid_claim_type. intros [H | [H | H]]; discriminate H. }
  split; [lia |]. split; [exact H |].
  apply (unknown_claim_type_is_false 9 "Row" 2); [lia | exact H].
Defined.

(** C9: for every claim type and claim value, a position outside 1..9
    makes the evaluator raise the position error, and a position inside
    1..9 never does: the evaluator then returns a boolean. *)
Theorem position_checked_first p ct v :
  (p < 1 \/ 9 < p -> verifyClaimLocally p ct v = Throw InvalidPosition)
  /\ (1 <= p <= 9 ->
      verifyClaimLocally p ct v <> Throw InvalidPosition
      /\ exists b, verifyClaimLocally p ct v = Ok b).
Proof.
  split; [apply out_of_grid_throws |].
  intros Hp. destruct (on_grid_returns p ct v Hp) as [b Hb].
  split; [rewrite Hb; discriminate | eauto].
Qed.

Lemma position_checked_first_witness :
  (0 < 1 \/ 9 < 0) /\ 1 <= 4 <= 9
  /\ verifyClaimLocally 0 "row" 0 = Throw InvalidPosition
  /\ verifyClaimLocally 4 "row" 0 <> Throw InvalidPosition.
Proof.
  assert (H0 : 0 < 1 \/ 9 < 0) by (left; lia).
  assert (H4 : 1 <= 4 <= 9) by lia.
  split; [exact H0 |]. split; [exact H4 |]. split.
  - exact (proj1 (position_checked_first 0 "row" 0) H0).
  - exact (proj1 (proj2 (position_checked_first 4 "row" 0) H4)).
Defined.

(** C10: for every position [p] on the grid and every integer [v], in or
    out of 1..9, the adjacent claim never fails; it returns the boolean of
    the row and column differences computed from [v], so no cell is
    adjacent to itself, while the off-grid value 10 counts as adjacent to
    cell 7. *)
Theorem adjacent_never_fails p v :
  1 <= p <= 9 ->
  (let otherRow := (v - 1) / 3 in
   let otherCol := Z.rem (v - 1) 3 in
   let rowDiff := Z.abs ((p - 1) / 3 - otherRow) in
   let colDiff := Z.abs ((p - 1) mod 3 - otherCol) in
   verifyClaimLocally p "adjacent" v =
     Ok ((rowDiff =? 1) && (colDiff =? 0) || (rowDiff =? 0) && (colDiff =? 1)))
  /\ verifyClaimLocally p "adjacent" p = Ok false
  /\ verifyClaimLocally 7 "adjacent" 10 = Ok true.
Proof.
  intros Hp. split; [| split; [| reflexivity]].
  - cbv zeta. unfold verifyClaimLocally.
    rewrite (position_guard_passes p Hp). simpl.
    now rewrite rem_is_mod_on_grid by lia.
  - rewrite adjacent_any by assumption.
    rewrite rem_is_mod_on_grid by lia. fold (row p) (col p).
    f_equal. apply Z.eqb_neq. lia.
Qed.

Lemma adjacent_never_fails_witness :
  1 <= 3 <= 9 /\ verifyClaimLocally 3 "adjacent" (-4) = Ok false
  /\ verifyClaimLocally 3 "adjacent" 3 = Ok false.
Proof.
  split; [lia |]. split.
  - exact (proj1 (adjacent_never_fails 3 (-4) ltac:(lia))).
  - exact (proj1 (proj2 (adjacent_never_fails 3 3 ltac:(lia)))).
Defined.

End Evaluator.

(** ** Properties of the byte codec *)

Section BigEndian.

Lemma big_endian_length n v : length (big_endian n v) = n.
Proof.
  revert v. induction n as [| n IH]; intros v; simpl; [reflexivity |].
  rewrite length_app, IH. simpl. lia.
Qed.

Lemma big_endian_bytes n v : Forall is_byte (big_endian n v).
Proof.
  revert v. induction n as [| n IH]; intros v; simpl; [constructor |].
  apply Forall_app. split; [apply IH |].
  constructor; [| constructor]. unfold is_byte.
  apply Z.mod_pos_bound. lia.
Qed.

Lemma big_endian_value_snoc bytes b :
  big_endian_value (bytes ++ [b]) = 256 * big_endian_value bytes + b.
Proof. unfold big_endian_value. now rewrite fold_left_app. Qed.

(** Decoding the encoding gives the low [8 * n] bits back. *)
Lemma big_endian_value_encode n v :
  big_endian_value (big_endian n v) = v mod 256 ^ Z.of_nat n.
Proof.
  revert v. induction n as [| n IH]; intros v.
  - simpl. now rewrite Z.mod_1_r.
  - cbn [big_endian]. rewrite big_endian_value_snoc, IH.
    rewrite Nat2Z.inj_succ, Z.pow_succ_r by lia.
    rewrite Z.rem_mul_r by lia. lia.
Qed.

(** Byte [i] of the encoding holds bits [8 * (n - 1 - i)] and up: the most
    significant byte is first. *)
Lemma big_endian_lookup n : forall v (i : nat),
  (i < n)%nat ->
  big_endian n v !! i = Some ((v / 256 ^ (Z.of_nat n - 1 - Z.of_nat i)) mod 256).
Proof.
  induction n as [| n IH]; intros v i Hi; [lia |].
  cbn [big_endian].
  destruct (decide (i = n)) as [-> | Hne].
  - rewrite lookup_app_r by (rewrite big_endian_length; lia).
    rewrite big_endian_length, Nat.sub_diag.
    replace (Z.of_nat (S n) - 1 - Z.of_nat n) with 0 by lia.
    now rewrite Z.div_1_r.
  - rewrite lookup_app_l by (rewrite big_endian_length; lia).
    rewrite IH by lia. do 2 f_equal.
    rewrite Z.div_div by (try apply Z.pow_pos_nonneg; lia).
    rewrite <- Z.pow_succ_r by lia. do 2 f_equal. lia.
Qed.

(** The encoding only looks at the low bits. *)
Lemma big_endian_mod n v : big_endian n (v mod 256 ^ Z.of_nat n) = big_endian n v.
Proof.
  revert v. induction n as [| n IH]; intros v; [reflexivity |].
  cbn [big_endian]. rewrite Nat2Z.inj_succ, Z.pow_succ_r by lia.
  assert (Hpos : 0 < 256 ^ Z.of_nat n) by (apply Z.pow_pos_nonneg; lia).
  f_equal.
  - rewrite <- (IH (v / 256)). f_equal.
    rewrite Z.rem_mul_r by lia.
    rewrite (Z.mul_comm 256), Z.div_add by lia.
    rewrite (Z.div_small (v mod 256)) by (apply Z.mod_pos_bound; lia).
    reflexivity.
  - f_equal. rewrite Z.rem_mul_r by lia.
    rewrite (Z.mul_comm 256), Z.mod_add by lia.
    apply Z.mod_mod. lia.
Qed.

(** The loop of [decimalToBytes32] writes the encoding over the first [n]
    bytes of the array and leaves the others. *)
Lemma decimalToBytes32_loop_spec n bytes num :
  (n <= length bytes)%nat ->
  decimalToBytes32_loop n bytes num = big_endian n num ++ drop n bytes.
Proof.
  revert bytes num. induction n as [| n IH]; intros bytes num Hn.
  - simpl. now rewrite drop_0.
  - cbn [decimalToBytes32_loop big_endian].
    rewrite IH by (rewrite length_insert; lia).
    rewrite <- app_assoc. f_equal.
    { f_equal. apply Z.shiftr_div_pow2. lia. }
    unfold ToUint8. change 255 with (Z.ones 8).
    rewrite Z.land_ones by lia. change (2 ^ 8) with 256.
    rewrite Z.mod_mod by lia.
    destruct (lookup_lt_is_Some_2 bytes n ltac:(lia)) as [b0 Hb0].
    rewrite drop_insert_ge by lia. rewrite Nat.sub_diag.
    rewrite (drop_S bytes b0 n Hb0). reflexivity.
Qed.

End BigEndian.

(** *** [BigInt] on decimal strings *)

Section Decimal.

Lemma of_uint_acc_fold d acc :
  Z.pos (Pos.of_uint_acc d acc) = uint_fold (Z.pos acc) d.
Proof.
  revert acc. induction d as [| d IH | d IH | d IH | d IH | d IH
                              | d IH | d IH | d IH | d IH | d IH];
    intros acc; simpl; [reflexivity | ..];
    rewrite IH; f_equal; lia.
Qed.

Lemma of_uint_fold d : Z.of_uint d = uint_fold 0 d.
Proof.
  unfold Z.of_uint.
  induction d as [| d IH | d IH | d IH | d IH | d IH
                  | d IH | d IH | d IH | d IH | d IH];
    simpl; [reflexivity | exact IH | ..]; apply of_uint_acc_fold.
Qed.

(** What the decimal reader accepts is a digit for [BigInt] too: no white
    space, no sign, no radix letter. *)
Lemma uint_of_char_digit c d d' :
  uint_of_char c (Some d) = Some d' ->
  exists k,
    digit_of c = Some k /\ (k <? 10) = true
    /\ is_StrWhiteSpaceChar c = false
    /\ Ascii.eqb c "+" = false /\ Ascii.eqb c "-" = false
    /\ (forall ds, radix_prefix "0" (c :: ds) = None)
    /\ (forall acc, uint_fold acc d' = uint_fold (10 * acc + k) d).
Proof.
  intros H.
  destruct (uint_of_char_spec c d d' H)
    as [[-> ->] | [[-> ->] | [[-> ->] | [[-> ->] | [[-> ->]
      | [[-> ->] | [[-> ->] | [[-> ->] | [[-> ->] | [-> ->]]]]]]]]]];
    eexists; (split; [reflexivity |]); repeat split; reflexivity.
Qed.

Lemma digits_value_reads s : forall d acc,
  NilEmpty.uint_of_string s = Some d ->
  digits_value 10 acc (list_ascii_of_string s) = Some (uint_fold acc d).
Proof.
  induction s as [| c s IH]; intros d acc H; simpl in H.
  - injection H as <-. reflexivity.
  - destruct (NilEmpty.uint_of_string s) as [d0 |] eqn:E; [| discriminate H].
    destruct (uint_of_char_digit c d0 d H) as (k & Hk & Hlt & _ & _ & _ & _ & Hv).
    cbn [list_ascii_of_string digits_value].
    rewrite Hk, Hlt, Hv. now apply IH.
Qed.

Lemma digits_not_white_space s : forall d,
  NilEmpty.uint_of_string s = Some d ->
  Forall (fun c => is_StrWhiteSpaceChar c = false) (list_ascii_of_string s).
Proof.
  induction s as [| c s IH]; intros d H; simpl in H; [constructor |].
  destruct (NilEmpty.uint_of_string s) as [d0 |] eqn:E; [| discriminate H].
  destruct (uint_of_char_digit c d0 d H) as (k & _ & _ & Hws & _).
  constructor; [exact Hws | now apply (IH d0)].
Qed.

Lemma trim_start_id text :
  Forall (fun c => is_StrWhiteSpaceChar c = false) text -> trim_start text = text.
Proof. intros H. destruct H as [| c rest Hc _]; simpl; [| rewrite Hc]; reflexivity. Qed.

Lemma trim_id text :
  Forall (fun c => is_StrWhiteSpaceChar c = false) text -> trim text = text.
Proof.
  intros H. unfold trim. rewrite (trim_start_id text H).
  rewrite trim_start_id; [apply rev_involutive |].
  apply List.Forall_forall. intros c Hc. apply In_rev in Hc.
  revert c Hc. now apply List.Forall_forall.
Qed.

Lemma radix_prefix_decimal c s d :
  NilEmpty.uint_of_string (String c s) = Some d ->
  radix_prefix c (list_ascii_of_string s) = None.
Proof.
  intros H. unfold radix_prefix.
  destruct (Ascii.eqb_spec c "0") as [-> | _]; [| reflexivity].
  destruct s as [| p s]; [reflexivity |].
  simpl in H.
  destruct (NilEmpty.uint_of_string s) as [d0 |] eqn:E; [| discriminate H].
  destruct (uint_of_char p (Some d0)) as [d1 |] eqn:E1; [| discriminate H].
  destruct (uint_of_char_digit p d0 d1 E1) as (k & _ & _ & _ & _ & _ & Hr & _).
  exact (Hr (list_ascii_of_string s)).
Qed.

(** [BigInt] reads a string of decimal digits as the number it denotes. *)
Lemma BigInt_decimal s v : decimal_value s = Some v -> BigInt s = Ok v.
Proof.
  unfold decimal_value, NilZero.uint_of_string. intros H.
  destruct s as [| c s]; [discriminate H |].
  destruct (NilEmpty.uint_of_string (String c s)) as [d |] eqn:E; [| discriminate H].
  injection H as <-.
  unfold BigInt, StringToBigInt.
  rewrite trim_id by (now apply (digits_not_white_space _ d)).
  cbn [list_ascii_of_string].
  pose proof (radix_prefix_decimal c s d E) as Hr.
  pose proof (digits_value_reads (String c s) d 0 E) as Hv.
  simpl in E.
  destruct (NilEmpty.uint_of_string s) as [d0 |] eqn:E0; [| discriminate E].
  destruct (uint_of_char_digit c d0 d E) as (k & _ & _ & _ & Hplus & Hminus & _).
  rewrite Hplus, Hminus, Hr. unfold parse_digits.
  cbn [list_ascii_of_string] in Hv. rewrite Hv.
  now rewrite of_uint_fold.
Qed.

End Decimal.

(** *** The three encoders *)

Section Encoders.

Lemma decimalToBytes32_decimal s v :
  decimal_value s = Some v -> decimalToBytes32 s = Ok (big_endian 32 v).
Proof.
  intros H. unfold decimalToBytes32. rewrite (BigInt_decimal s v H).
  cbn [mbind result_bind mret result_ret].
  rewrite decimalToBytes32_loop_spec by (unfold Uint8Array; rewrite length_replicate; lia).
  unfold Uint8Array. rewrite drop_ge by (rewrite length_replicate; lia).
  apply f_equal, app_nil_r.
Qed.

Lemma FieldElement_bytes s :
  FieldElement s ->
  exists bytes, decimalToBytes32 s = Ok bytes /\ length bytes = 32%nat.
Proof.
  intros [v Hv]. exists (big_endian 32 v).
  split; [now apply decimalToBytes32_decimal | apply big_endian_length].
Qed.

(** Copying [source] right behind the part [done] of an array whose other
    bytes are still zero. *)
Lemma TypedArray_set_next done source (m : nat) :
  TypedArray_set (done ++ Uint8Array (length source + m)) source (length done)
  = Ok ((done ++ source) ++ Uint8Array m).
Proof.
  unfold TypedArray_set, Uint8Array.
  rewrite decide_True by (rewrite length_app, length_replicate; lia).
  f_equal. rewrite <- app_assoc.
  replace (length done) with (length done + 0)%nat at 1 by lia.
  rewrite list_inserts_app_r. f_equal.
  rewrite replicate_add. apply list_inserts_0_r.
  now rewrite length_replicate.
Qed.

Lemma g1PointToBytes_layout x y tail bx by_ :
  decimalToBytes32 x = Ok bx -> length bx = 32%nat ->
  decimalToBytes32 y = Ok by_ -> length by_ = 32%nat ->
  g1PointToBytes (x :: y :: tail) = Ok (bx ++ by_).
Proof.
  intros Hx Lx Hy Ly. unfold g1PointToBytes.
  cbn [lookup list_lookup defined mbind result_bind]. rewrite Hx, Hy.
  cbn [mbind result_bind].
  pose proof (TypedArray_set_next [] bx 32) as S1.
  rewrite Lx in S1. simpl length in S1. simpl app in S1. rewrite S1.
  cbn [mbind result_bind].
  pose proof (TypedArray_set_next bx by_ 0) as S2.
  rewrite Lx, Ly in S2. simpl Nat.add in S2.
  rewrite S2. cbn [mbind result_bind mret result_ret].
  unfold Buffer_from, Uint8Array. simpl replicate. now rewrite app_nil_r.
Qed.

Lemma g2PointToBytes_layout xReal xImag yReal yImag tail bxr bxi byr byi :
  decimalToBytes32 xReal = Ok bxr -> length bxr = 32%nat ->
  decimalToBytes32 xImag = Ok bxi -> length bxi = 32%nat ->
  decimalToBytes32 yReal = Ok byr -> length byr = 32%nat ->
  decimalToBytes32 yImag = Ok byi -> length byi = 32%nat ->
  g2PointToBytes ([xReal; xImag] :: [yReal; yImag] :: tail)
  = Ok (bxi ++ bxr ++ byi ++ byr).
Proof.
  intros Hxr Lxr Hxi Lxi Hyr Lyr Hyi Lyi. unfold g2PointToBytes.
  cbn [lookup list_lookup defined mbind result_bind].
  rewrite Hxr, Hxi, Hyr, Hyi. cbn [mbind result_bind].
  pose proof (TypedArray_set_next [] bxi 96) as S1.
  rewrite Lxi in S1. simpl length in S1. simpl app in S1. simpl Nat.add in S1.
  rewrite S1. cbn [mbind result_bind].
  pose proof (TypedArray_set_next bxi bxr 64) as S2.
  rewrite Lxi, Lxr in S2. simpl Nat.add in S2.
  rewrite S2. cbn [mbind result_bind].
  pose proof (TypedArray_set_next (bxi ++ bxr) byi 32) as S3.
  rewrite length_app, Lxi, Lxr, Lyi in S3. simpl Nat.add in S3.
  rewrite S3. cbn [mbind result_bind].
  pose proof (TypedArray_set_next ((bxi ++ bxr) ++ byi) byr 0) as S4.
  rewrite !length_app, Lxi, Lxr, Lyi, Lyr in S4. simpl Nat.add in S4.
  rewrite S4. cbn [mbind result_bind mret result_ret].
  unfold Buffer_from, Uint8Array. simpl replicate.
  rewrite app_nil_r, <- !app_assoc. reflexivity.
Qed.

(** C2: for every non-empty string of decimal digits, denoting [v],
    [decimalToBytes32] returns exactly 32 bytes, the big-endian encoding of
    [v mod 2^256]: a value of 2^256 or more is truncated, not rejected.
    The fixed vectors: 0 gives 32 zero bytes, 255 gives 31 zero bytes and
    0xFF, 2^256 - 1 gives 32 bytes 0xFF (and 2^256 gives 32 zero bytes). *)
Theorem decimalToBytes32_big_endian s v :
  decimal_value s = Some v ->
  (exists bytes,
      decimalToBytes32 s = Ok bytes
      /\ bytes = big_endian 32 (v mod 2 ^ 256)
      /\ length bytes = 32%nat
      /\ Forall is_byte bytes
      /\ big_endian_value bytes = v mod 2 ^ 256
      /\ forall i : nat, (i < 32)%nat ->
           bytes !! i = Some ((v / 256 ^ (31 - Z.of_nat i)) mod 256))
  /\ decimalToBytes32 "0" = Ok (replicate 32 0)
  /\ decimalToBytes32 "255" = Ok (replicate 31 0 ++ [255])
  /\ decimalToBytes32
       "115792089237316195423570985008687907853269984665640564039457584007913129639935"
     = Ok (replicate 32 255)
  /\ decimalToBytes32
       "115792089237316195423570985008687907853269984665640564039457584007913129639936"
     = Ok (replicate 32 0).
Proof.
  intros H. split; [| repeat split; vm_compute; reflexivity].
  exists (big_endian 32 v).
  split; [now apply decimalToBytes32_decimal |].
  split; [symmetry; apply (big_endian_mod 32 v) |].
  split; [apply big_endian_length |].
  split; [apply big_endian_bytes |].
  split; [apply (big_endian_value_encode 32 v) |].
  intros i Hi. apply (big_endian_lookup 32 v i Hi).
Qed.

Lemma decimalToBytes32_big_endian_witness :
  decimal_value "65536" = Some 65536 /\
  decimalToBytes32 "65536" = Ok (replicate 29 0 ++ [1; 0; 0]).
Proof.
  assert (H : decimal_value "65536" = Some 65536) by reflexivity.
  split; [exact H |].
  destruct (proj1 (decimalToBytes32_big_endian "65536" 65536 H))
    as (bytes & Hb & -> & _).
  exact Hb.
Defined.

Lemma g2PointToBytes_fields xReal xImag yReal yImag tail :
  FieldElement xReal -> FieldElement xImag ->
  FieldElement yReal -> FieldElement yImag ->
  exists bxr bxi byr byi,
    decimalToBytes32 xReal = Ok bxr /\ decimalToBytes32 xImag = Ok bxi
    /\ decimalToBytes32 yReal = Ok byr /\ decimalToBytes32 yImag = Ok byi
    /\ g2PointToBytes ([xReal; xImag] :: [yReal; yImag] :: tail)
       = Ok (bxi ++ bxr ++ byi ++ byr)
    /\ length (bxi ++ bxr ++ byi ++ byr) = 128%nat.
Proof.
  intros Fxr Fxi Fyr Fyi.
  destruct (FieldElement_bytes _ Fxr) as (bxr & Hxr & Lxr).
  destruct (FieldElement_bytes _ Fxi) as (bxi & Hxi & Lxi).
  destruct (FieldElement_bytes _ Fyr) as (byr & Hyr & Lyr).
  destruct (FieldElement_bytes _ Fyi) as (byi & Hyi & Lyi).
  exists bxr, bxi, byr, byi. repeat (split; [assumption |]).
  split; [now apply g2PointToBytes_layout |].
  rewrite !length_app. lia.
Qed.

(** C1: for every G2 point whose two axes are (real, imaginary) pairs of
    decimal field elements, [g2PointToBytes] returns the 128 bytes
    bytes32 (x_imag), bytes32 (x_real), bytes32 (y_imag), bytes32 (y_real)
    in this order; on [["1","2"],["3","4"]] these are the encodings of 2, 1,
    4 and 3. *)
Theorem g2PointToBytes_imag_before_real xReal xImag yReal yImag tail :
  FieldElement xReal -> FieldElement xImag ->
  FieldElement yReal -> FieldElement yImag ->
  (exists bxr bxi byr byi,
      decimalToBytes32 xReal = Ok bxr /\ decimalToBytes32 xImag = Ok bxi
      /\ decimalToBytes32 yReal = Ok byr /\ decimalToBytes32 yImag = Ok byi
      /\ g2PointToBytes ([xReal; xImag] :: [yReal; yImag] :: tail)
         = Ok (bxi ++ bxr ++ byi ++ byr)
      /\ length (bxi ++ bxr ++ byi ++ byr) = 128%nat)
  /\ (bxi ← decimalToBytes32 "2"; bxr ← decimalToBytes32 "1";
      byi ← decimalToBytes32 "4"; byr ← decimalToBytes32 "3";
      mret (bxi ++ bxr ++ byi ++ byr))
     = g2PointToBytes [["1"; "2"]; ["3"; "4"]]
  /\ g2PointToBytes [["1"; "2"]; ["3"; "4"]]
     = Ok (replicate 31 0 ++ [2] ++ replicate 31 0 ++ [1]
           ++ replicate 31 0 ++ [4] ++ replicate 31 0 ++ [3]).
Proof.
  intros Fxr Fxi Fyr Fyi. split; [| split; vm_compute; reflexivity].
  now apply g2PointToBytes_fields.
Qed.

Lemma g2PointToBytes_imag_before_real_witness :
  FieldElement "10" /\ FieldElement "11" /\ FieldElement "12" /\ FieldElement "13"
  /\ exists bxr bxi byr byi,
      decimalToBytes32 "10" = Ok bxr /\ decimalToBytes32 "11" = Ok bxi
      /\ decimalToBytes32 "12" = Ok byr /\ decimalToBytes32 "13" = Ok byi
      /\ g2PointToBytes ([["10"; "11"]; ["12"; "13"]] ++ [["1"; "0"]])
         = Ok (bxi ++ bxr ++ byi ++ byr)
      /\ length (bxi ++ bxr ++ byi ++ byr) = 128%nat.
Proof.
  assert (F : forall s v, decimal_value s = Some v -> FieldElement s)
    by (intros s v H; exists v; exact H).
  pose proof (F "10" 10 eq_refl) as F10. pose proof (F "11" 11 eq_refl) as F11.
  pose proof (F "12" 12 eq_refl) as F12. pose proof (F "13" 13 eq_refl) as F13.
  repeat (split; [assumption |]).
  exact (proj1 (g2PointToBytes_imag_before_real
                  "10" "11" "12" "13" [["1"; "0"]] F10 F11 F12 F13)).
Defined.

Lemma g1PointToBytes_G1 point :
  G1Point point ->
  exists bytes,
    g1PointToBytes point = Ok bytes /\ length bytes = 64%nat
    /\ forall x y tail, point = x :: y :: tail ->
       exists bx by_,
         decimalToBytes32 x = Ok bx /\ decimalToBytes32 y = Ok by_
         /\ bytes = bx ++ by_.
Proof.
  intros (x & y & tail & -> & Fx & Fy).
  destruct (FieldElement_bytes _ Fx) as (bx & Hx & Lx).
  destruct (FieldElement_bytes _ Fy) as (by_ & Hy & Ly).
  exists (bx ++ by_).
  split; [now apply g1PointToBytes_layout |].
  split; [rewrite length_app; lia |].
  intros x' y' tail' E. injection E as <- <- <-. eauto.
Qed.

Lemma g2PointToBytes_G2 point :
  G2Point point ->
  exists bytes, g2PointToBytes point = Ok bytes /\ length bytes = 128%nat.
Proof.
  intros (xr & xi & yr & yi & tail & -> & Fxr & Fxi & Fyr & Fyi).
  destruct (g2PointToBytes_fields xr xi yr yi tail Fxr Fxi Fyr Fyi)
    as (bxr & bxi & byr & byi & _ & _ & _ & _ & H & L).
  eauto.
Qed.

(** C7: for every native proof whose [pi_a] and [pi_c] are G1 points and
    whose [pi_b] is a G2 point, [convertSnarkjsProofToContract] returns the
    record of [g1PointToBytes pi_a], [g2PointToBytes pi_b] and
    [g1PointToBytes pi_c], nothing else done to them; a G1 point is encoded
    as bytes32 (x) followed by bytes32 (y); [a] and [c] have 64 bytes and
    [b] has 128. *)
Theorem convertSnarkjsProofToContract_composition proof :
  G1Point (Snarkjs.pi_a proof) -> G2Point (Snarkjs.pi_b proof) ->
  G1Point (Snarkjs.pi_c proof) ->
  exists a b c,
    convertSnarkjsProofToContract proof
    = Ok {| Bindings.a := a; Bindings.b := b; Bindings.c := c |}
    /\ g1PointToBytes (Snarkjs.pi_a proof) = Ok a
    /\ g2PointToBytes (Snarkjs.pi_b proof) = Ok b
    /\ g1PointToBytes (Snarkjs.pi_c proof) = Ok c
    /\ (forall x y tail, Snarkjs.pi_a proof = x :: y :: tail ->
        exists bx by_,
          decimalToBytes32 x = Ok bx /\ decimalToBytes32 y = Ok by_
          /\ a = bx ++ by_)
    /\ (forall x y tail, Snarkjs.pi_c proof = x :: y :: tail ->
        exists bx by_,
          decimalToBytes32 x = Ok bx /\ decimalToBytes32 y = Ok by_
          /\ c = bx ++ by_)
    /\ length a = 64%nat /\ length b = 128%nat /\ length c = 64%nat.
Proof.
  intros Ga Gb Gc.
  destruct (g1PointToBytes_G1 _ Ga) as (a & Ha & La & Sa).
  destruct (g2PointToBytes_G2 _ Gb) as (b & Hb & Lb).
  destruct (g1PointToBytes_G1 _ Gc) as (c & Hc & Lc & Sc).
  exists a, b, c. unfold convertSnarkjsProofToContract.
  rewrite Ha, Hb, Hc. cbn [mbind result_bind mret result_ret].
  repeat (split; [first [reflexivity | assumption] |]). assumption.
Qed.

End Encoders.

Lemma convertSnarkjsProofToContract_composition_witness :
  G1Point (Snarkjs.pi_a sample_proof) /\ G2Point (Snarkjs.pi_b sample_proof)
  /\ G1Point (Snarkjs.pi_c sample_proof)
  /\ exists a b c,
       convertSnarkjsProofToContract sample_proof
       = Ok {| Bindings.a := a; Bindings.b := b; Bindings.c := c |}
       /\ length a = 64%nat /\ length b = 128%nat /\ length c = 64%nat.
Proof.
  assert (F : forall s v, decimal_value s = Some v -> FieldElement s)
    by (intros s v H; exists v; exact H).
  assert (Ga : G1Point (Snarkjs.pi_a sample_proof)).
  { exists "1", "2", ["1"]. split; [reflexivity |].
    split; [exact (F "1" 1 eq_refl) | exact (F "2" 2 eq_refl)]. }
  assert (Gb : G2Point (Snarkjs.pi_b sample_proof)).
  { exists "1", "2", "3", "4", [["1"; "0"]]. split; [reflexivity |].
    split; [exact (F "1" 1 eq_refl) |]. split; [exact (F "2" 2 eq_refl) |].
    split; [exact (F "3" 3 eq_refl) | exact (F "4" 4 eq_refl)]. }
  assert (Gc : G1Point (Snarkjs.pi_c sample_proof)).
  { exists "5", "6", ["1"]. split; [reflexivity |].
    split; [exact (F "5" 5 eq_refl) | exact (F "6" 6 eq_refl)]. }
  split; [exact Ga |]. split; [exact Gb |]. split; [exact Gc |].
  destruct (convertSnarkjsProofToContract_composition sample_proof Ga Gb Gc)
    as (a & b & c & H & _ & _ & _ & _ & _ & La & Lb & Lc).
  exists a, b, c. auto.
Defined.

(** ** Properties of proof generation *)

Section Orchestrator.

Variable prover : Prover.

(** The numbering of the claim types handed to the circuit. *)
Lemma CLAIM_TYPE_MAP_numbering :
  CLAIM_TYPE_MAP !! "row" = Some 0
  /\ CLAIM_TYPE_MAP !! "column" = Some 1
  /\ CLAIM_TYPE_MAP !! "adjacent" = Some 2.
Proof. repeat split; vm_compute; reflexivity. Qed.

Lemma generateClaimProof_run p ct v b r trace :
  verifyClaimLocally p ct v = Ok b ->
  prover (circuit_inputs p ct v b) WASM_PATH ZKEY_PATH = Ok r ->
  generateClaimProof prover p ct v trace
  = (Ok {| proof := Snarkjs.proof r;
           publicSignals := Snarkjs.publicSignals r;
           isTrue := b |},
     trace ++ run_events p ct v b r).
Proof.
  intros Hb Hr.
  unfold generateClaimProof, mbind, IO_bind, console_log, lift,
    groth16_fullProve, mret, IO_ret.
  rewrite Hb. fold (circuit_inputs p ct v b). rewrite Hr.
  unfold run_events. rewrite <- !app_assoc. reflexivity.
Qed.

Lemma generateClaimProof_rejected p ct v b e trace :
  verifyClaimLocally p ct v = Ok b ->
  prover (circuit_inputs p ct v b) WASM_PATH ZKEY_PATH = Throw e ->
  fst (generateClaimProof prover p ct v trace) = Throw e.
Proof.
  intros Hb Hr.
  unfold generateClaimProof, mbind, IO_bind, console_log, lift,
    groth16_fullProve, mret, IO_ret.
  rewrite Hb. fold (circuit_inputs p ct v b). rewrite Hr. reflexivity.
Qed.

(** C6: for a position on the grid and a valid claim type, the local
    evaluator returns a boolean [b], and whatever the prover answers:
    when the prover resolves, [generateClaimProof] resolves to a record
    whose [isTrue] is [b], after a run in which [b] is logged and handed to
    the prover as [expectedResult] before the prover is called; when the
    prover rejects, the rejection is passed on; and no record it resolves
    to has another [isTrue]. *)
Theorem generateClaimProof_isTrue_is_local p ct v trace :
  1 <= p <= 9 -> valid_claim_type ct ->
  exists b,
    verifyClaimLocally p ct v = Ok b
    /\ (forall r, prover (circuit_inputs p ct v b) WASM_PATH ZKEY_PATH = Ok r ->
          generateClaimProof prover p ct v trace
          = (Ok {| proof := Snarkjs.proof r;
                   publicSignals := Snarkjs.publicSignals r;
                   isTrue := b |},
             trace ++ run_events p ct v b r))
    /\ (forall e, prover (circuit_inputs p ct v b) WASM_PATH ZKEY_PATH = Throw e ->
          fst (generateClaimProof prover p ct v trace) = Throw e)
    /\ (forall out trace',
          generateClaimProof prover p ct v trace = (Ok out, trace') ->
          isTrue out = b).
Proof.
  intros Hp _. destruct (on_grid_returns p ct v Hp) as [b Hb].
  exists b. split; [exact Hb |].
  split; [intros r Hr; now apply generateClaimProof_run |].
  split; [intros e He; exact (generateClaimProof_rejected p ct v b e trace Hb He) |].
  intros out trace' H.
  destruct (prover (circuit_inputs p ct v b) WASM_PATH ZKEY_PATH) as [r | e] eqn:Hr.
  - rewrite (generateClaimProof_run p ct v b r trace Hb Hr) in H.
    injection H as <- _. reflexivity.
  - pose proof (generateClaimProof_rejected p ct v b e trace Hb Hr) as H'.
    rewrite H in H'. discriminate H'.
Qed.

End Orchestrator.

Lemma generateClaimProof_isTrue_is_local_witness :
  1 <= 5 <= 9 /\ valid_claim_type "adjacent"
  /\ forall out trace',
       generateClaimProof
         (fun _ _ _ => Ok {| Snarkjs.proof := sample_proof;
                             Snarkjs.publicSignals := ["1"] |})
         5 "adjacent" 2 [] = (Ok out, trace') ->
       isTrue out = true.
Proof.
  assert (Hp : 1 <= 5 <= 9) by lia.
  assert (Hct : valid_claim_type "adjacent") by (right; right; reflexivity).
  split; [exact Hp |]. split; [exact Hct |].
  destruct (generateClaimProof_isTrue_is_local
              (fun _ _ _ => Ok {| Snarkjs.proof := sample_proof;
                                  Snarkjs.publicSignals := ["1"] |})
              5 "adjacent" 2 [] Hp Hct) as (b & Hb & _ & _ & H).
  injection Hb as <-. exact H.
Defined.

(** ** Properties of proof transport *)

Section Transport.

Import JSON.

(** Induction on a value, with the hypothesis for every element of an
    array and every property value of an object. *)
Lemma json_induction (P : json -> Prop) :
  P JNull ->
  (forall b, P (JBool b)) ->
  (forall s, P (JString s)) ->
  (forall elements, Forall P elements -> P (JArray elements)) ->
  (forall properties,
      Forall (fun kx => P (snd kx)) properties -> P (JObject properties)) ->
  forall v, P v.
Proof.
  intros Hnull Hbool Hstring Harray Hobject.
  fix IH 1. intros [| b | s | elements | properties].
  - exact Hnull.
  - apply Hbool.
  - apply Hstring.
  - apply Harray. induction elements as [| x l IHl]; constructor.
    + apply IH.
    + exact IHl.
  - apply Hobject. induction properties as [| [k x] l IHl]; constructor.
    + apply IH.
    + exact IHl.
Qed.

Lemma skip_ws_head c input : is_ws c = false -> skip_ws (c :: input) = c :: input.
Proof. intros H. simpl. now rewrite H. Qed.

(** Reading back one quoted code unit. *)
Lemma parse_string_chars_unit c input :
  parse_string_chars (quote_code_unit c ++ input)
  = prepend c (parse_string_chars input).
Proof.
  destruct c as [[] [] [] [] [] [] [] []]; reflexivity.
Qed.

Lemma parse_string_chars_quoted s rest :
  parse_string_chars (flat_map quote_code_unit s ++ dquote :: rest) = Some (s, rest).
Proof.
  induction s as [| c s IH]; [reflexivity |].
  cbn [flat_map]. rewrite <- app_assoc, parse_string_chars_unit, IH.
  reflexivity.
Qed.

Lemma parse_string_chars_QuoteJSONString s rest :
  exists body,
    QuoteJSONString s ++ rest = dquote :: body
    /\ parse_string_chars body = Some (list_ascii_of_string s, rest).
Proof.
  exists (flat_map quote_code_unit (list_ascii_of_string s) ++ dquote :: rest).
  split; [| apply parse_string_chars_quoted].
  unfold QuoteJSONString. cbn [app]. now rewrite <- app_assoc.
Qed.

(** A serialized value starts with a character that is no white space and
    closes neither an array nor an object. *)
Lemma SerializeJSONProperty_head v :
  exists c tl,
    SerializeJSONProperty v = c :: tl
    /\ is_ws c = false /\ Ascii.eqb c "]" = false /\ Ascii.eqb c "}" = false.
Proof.
  destruct v as [| [|] | s | elements | properties]; cbn [SerializeJSONProperty];
    eexists _, _; repeat split; reflexivity.
Qed.

Lemma skip_ws_serialized v rest :
  skip_ws (SerializeJSONProperty v ++ rest) = SerializeJSONProperty v ++ rest.
Proof.
  destruct (SerializeJSONProperty_head v) as (c & tl & -> & Hws & _).
  now apply skip_ws_head.
Qed.

Lemma parse_elements_serialized x l :
  Forall reads_back (x :: l) ->
  forall rest n,
    (2 * length (join_comma (map SerializeJSONProperty (x :: l))) + 1 <= n)%nat ->
    parse_elements n
      (join_comma (map SerializeJSONProperty (x :: l)) ++ "]"%char :: rest)
    = Some (x :: l, rest).
Proof.
  revert x. induction l as [| y l IH]; intros x Hall rest n Hn.
  - apply Forall_inv in Hall. cbn [map join_comma] in *.
    destruct n as [| n]; [lia |]. cbn [parse_elements].
    rewrite (Hall ("]"%char :: rest) n) by lia.
    reflexivity.
  - pose proof (Forall_inv Hall) as Hx. apply Forall_inv_tail in Hall.
    change (join_comma (map SerializeJSONProperty (x :: y :: l)))
      with (SerializeJSONProperty x
            ++ ","%char :: join_comma (map SerializeJSONProperty (y :: l))) in *.
    rewrite length_app in Hn. cbn [length] in Hn.
    destruct n as [| n]; [lia |]. cbn [parse_elements].
    rewrite <- app_assoc. cbn [app].
    rewrite (Hx _ n) by lia.
    cbn [mbind option_bind]. rewrite skip_ws_head by reflexivity.
    change (Ascii.eqb ","%char ","%char) with true. cbv iota.
    rewrite (IH y Hall rest n) by lia. reflexivity.
Qed.

Lemma SerializeJSONProperty_object properties :
  SerializeJSONProperty (JObject properties)
  = "{"%char :: join_comma (map member_text properties) ++ ["}"%char].
Proof.
  cbn [SerializeJSONProperty]. do 3 f_equal.
  apply map_ext. now intros [k x].
Qed.

(** Reading the member [k : x] and stopping in front of [tail]. *)
Lemma parse_member_serialized k x tail n :
  reads_back x ->
  (2 * length (SerializeJSONProperty x) <= n)%nat ->
  exists body,
    member_text (k, x) ++ tail = dquote :: body
    /\ parse_string_chars body
       = Some (list_ascii_of_string k, ":"%char :: SerializeJSONProperty x ++ tail)
    /\ parse_value n (SerializeJSONProperty x ++ tail) = Some (x, tail).
Proof.
  intros Hx Hn. unfold member_text. cbn [fst snd].
  rewrite <- app_assoc. cbn [app].
  destruct (parse_string_chars_QuoteJSONString k
              (":"%char :: SerializeJSONProperty x ++ tail)) as (body & E & Hbody).
  exists body. split; [exact E |]. split; [exact Hbody |].
  now apply Hx.
Qed.

Lemma member_text_length k x :
  (length (SerializeJSONProperty x) + 3 <= length (member_text (k, x)))%nat.
Proof.
  unfold member_text, QuoteJSONString. cbn [fst snd].
  cbn [length app]. rewrite !length_app. cbn [length]. lia.
Qed.

Lemma parse_members_serialized kx l :
  Forall (fun kx => reads_back (snd kx)) (kx :: l) ->
  forall rest n,
    (2 * length (join_comma (map member_text (kx :: l))) + 1 <= n)%nat ->
    parse_members n (join_comma (map member_text (kx :: l)) ++ "}"%char :: rest)
    = Some (kx :: l, rest).
Proof.
  revert kx. induction l as [| ky l IH]; intros [k x] Hall rest n Hn.
  - apply Forall_inv in Hall. cbn [snd] in Hall. cbn [map join_comma] in *.
    pose proof (member_text_length k x) as Hlen.
    destruct n as [| n]; [lia |]. cbn [parse_members].
    destruct (parse_member_serialized k x ("}"%char :: rest) n Hall ltac:(lia))
      as (body & -> & Hbody & Hval).
    rewrite skip_ws_head by reflexivity.
    change (Ascii.eqb dquote dquote) with true. cbv iota.
    rewrite Hbody. cbn [mbind option_bind].
    rewrite skip_ws_head by reflexivity.
    change (Ascii.eqb ":"%char ":"%char) with true. cbv iota.
    rewrite Hval. cbn [mbind option_bind].
    rewrite skip_ws_head by reflexivity.
    change (Ascii.eqb "}"%char ","%char) with false.
    change (Ascii.eqb "}"%char "}"%char) with true. cbv iota.
    now rewrite string_of_list_ascii_of_string.
  - pose proof (Forall_inv Hall) as Hx. cbn [snd] in Hx.
    apply Forall_inv_tail in Hall.
    change (join_comma (map member_text ((k, x) :: ky :: l)))
      with (member_text (k, x)
            ++ ","%char :: join_comma (map member_text (ky :: l))) in *.
    pose proof (member_text_length k x) as Hlen.
    rewrite length_app in Hn. cbn [length] in Hn.
    destruct n as [| n]; [lia |]. cbn [parse_members].
    rewrite <- app_assoc. cbn [app].
    destruct (parse_member_serialized k x
                (","%char :: join_comma (map member_text (ky :: l))
                   ++ "}"%char :: rest) n Hx ltac:(lia))
      as (body & -> & Hbody & Hval).
    rewrite skip_ws_head by reflexivity.
    change (Ascii.eqb dquote dquote) with true. cbv iota.
    rewrite Hbody. cbn [mbind option_bind].
    rewrite skip_ws_head by reflexivity.
    change (Ascii.eqb ":"%char ":"%char) with true. cbv iota.
    rewrite Hval. cbn [mbind option_bind].
    rewrite skip_ws_head by reflexivity.
    change (Ascii.eqb ","%char ","%char) with true. cbv iota.
    rewrite (IH ky Hall rest n) by lia. cbn [mbind option_bind].
    now rewrite string_of_list_ascii_of_string.
Qed.

Lemma join_comma_head t ts c tl :
  t = c :: tl -> exists tl', join_comma (t :: ts) = c :: tl'.
Proof. intros ->. destruct ts; cbn [join_comma app]; eauto. Qed.

Lemma reads_back_array elements :
  Forall reads_back elements -> reads_back (JArray elements).
Proof.
  intros Hall rest n Hn. destruct elements as [| x l].
  - destruct n as [| n]; [cbn in Hn; lia | reflexivity].
  - cbn [SerializeJSONProperty] in *. cbn [length] in Hn.
    rewrite length_app in Hn. cbn [length] in Hn.
    destruct n as [| n]; [lia |].
    cbn [app]. rewrite <- app_assoc. cbn [app].
    destruct (SerializeJSONProperty_head x) as (c & tl & Hc & Hws & Hclose & _).
    destruct (join_comma_head _ (map SerializeJSONProperty l) c tl Hc) as [tl' E].
    pose proof (parse_elements_serialized x l Hall rest n ltac:(lia)) as Hp.
    cbn [map] in Hp |- *. rewrite E in Hp |- *. cbn [app] in Hp |- *.
    cbn [parse_value]. rewrite skip_ws_head by reflexivity.
    change (Ascii.eqb "["%char dquote) with false.
    change (Ascii.eqb "["%char "["%char) with true. cbv iota.
    rewrite skip_ws_head by exact Hws. rewrite Hclose, Hp. reflexivity.
Qed.

Lemma reads_back_object properties :
  object_of_members properties = properties ->
  Forall (fun kx => reads_back (snd kx)) properties ->
  reads_back (JObject properties).
Proof.
  intros Hobj Hall rest n Hn. rewrite SerializeJSONProperty_object in *.
  destruct properties as [| [k x] l].
  - destruct n as [| n]; [cbn in Hn; lia | reflexivity].
  - cbn [length] in Hn. rewrite length_app in Hn. cbn [length] in Hn.
    destruct n as [| n]; [lia |].
    cbn [app]. rewrite <- app_assoc. cbn [app].
    assert (Hk : member_text (k, x)
                 = dquote :: flat_map quote_code_unit (list_ascii_of_string k)
                     ++ [dquote] ++ ":"%char :: SerializeJSONProperty x).
    { unfold member_text, QuoteJSONString. cbn [fst snd app].
      now rewrite <- app_assoc. }
    destruct (join_comma_head _ (map member_text l) _ _ Hk) as [tl' E].
    pose proof (parse_members_serialized (k, x) l Hall rest n ltac:(lia)) as Hp.
    cbn [map] in Hp |- *. rewrite E in Hp |- *. cbn [app] in Hp |- *.
    cbn [parse_value]. rewrite skip_ws_head by reflexivity.
    change (Ascii.eqb "{"%char dquote) with false.
    change (Ascii.eqb "{"%char "["%char) with false.
    change (Ascii.eqb "{"%char "{"%char) with true. cbv iota.
    rewrite skip_ws_head by reflexivity.
    change (Ascii.eqb dquote "}"%char) with false. cbv iota.
    rewrite Hp. cbn [mbind option_bind]. now rewrite Hobj.
Qed.

Lemma reads_back_string s : reads_back (JString s).
Proof.
  intros rest n Hn. cbn [SerializeJSONProperty] in *.
  destruct n as [| n]; [unfold QuoteJSONString in Hn; cbn [length] in Hn; lia |].
  destruct (parse_string_chars_QuoteJSONString s rest) as (body & -> & Hbody).
  cbn [parse_value]. rewrite skip_ws_head by reflexivity.
  change (Ascii.eqb dquote dquote) with true. cbv iota.
  rewrite Hbody. cbn [mbind option_bind].
  now rewrite string_of_list_ascii_of_string.
Qed.

(** Every value the host can hold is read back from its text. *)
Lemma well_formed_reads_back v : well_formed v -> reads_back v.
Proof.
  induction v as [| b | s | elements IH | properties IH] using json_induction;
    intros Hwf.
  - intros rest n Hn. destruct n as [| n]; [cbn in Hn; lia | reflexivity].
  - intros rest n Hn. destruct n as [| n]; [destruct b; cbn in Hn; lia |].
    destruct b; reflexivity.
  - apply reads_back_string.
  - inversion Hwf as [| | | l Hl |]; subst. apply reads_back_array.
    clear Hwf. induction IH as [| x l Hx _ IHl]; [constructor |].
    constructor; [apply Hx; now apply Forall_inv in Hl |].
    apply IHl. now apply Forall_inv_tail in Hl.
  - inversion Hwf as [| | | | l Hobj Hl]; subst. apply reads_back_object; [exact Hobj |].
    clear Hwf Hobj. induction IH as [| kx l Hx _ IHl]; [constructor |].
    constructor; [apply Hx; now apply Forall_inv in Hl |].
    apply IHl. now apply Forall_inv_tail in Hl.
Qed.

(** [JSON.parse] undoes [JSON.stringify]. *)
Lemma parse_stringify v : well_formed v -> parse (stringify v) = Some v.
Proof.
  intros Hwf. unfold parse, stringify.
  rewrite list_ascii_of_string_of_list_ascii.
  pose proof (well_formed_reads_back v Hwf []
                (2 * length (SerializeJSONProperty v) + 1)%nat ltac:(lia)) as H.
  rewrite app_nil_r in H. rewrite H. reflexivity.
Qed.

Lemma well_formed_strings l : Forall well_formed (map JString l).
Proof. induction l as [| s l IH]; cbn [map]; constructor; [constructor | exact IH]. Qed.

(** A proof is a value the host can hold. *)
Lemma well_formed_Groth16Proof_value p : well_formed (Groth16Proof_value p).
Proof.
  unfold Groth16Proof_value. apply wf_object; [reflexivity |].
  repeat constructor; cbn [snd].
  - apply well_formed_strings.
  - induction (Snarkjs.pi_b p) as [| axis l IH]; cbn [map]; constructor; [| exact IH].
    constructor. apply well_formed_strings.
  - apply well_formed_strings.
Qed.

Lemma deserialize_serialize v :
  well_formed v -> deserializeProof (serializeProof v) = Ok v.
Proof.
  intros Hwf. unfold deserializeProof, serializeProof.
  now rewrite parse_stringify.
Qed.

(** C8: for every proof [p], deserializing its serialization gives [p]
    back, and every string [s] that [serializeProof] produced from a proof
    deserializes to a value whose serialization is [s] again. *)
Theorem proof_transport_round_trip p :
  deserializeProof (serializeProof (Groth16Proof_value p))
  = Ok (Groth16Proof_value p)
  /\ forall s, s = serializeProof (Groth16Proof_value p) ->
       exists v, deserializeProof s = Ok v /\ serializeProof v = s.
Proof.
  pose proof (deserialize_serialize _ (well_formed_Groth16Proof_value p)) as H.
  split; [exact H |]. intros s ->. eauto.
Qed.

Lemma proof_transport_round_trip_witness :
  exists v,
    deserializeProof (serializeProof (Groth16Proof_value sample_proof)) = Ok v
    /\ serializeProof v = serializeProof (Groth16Proof_value sample_proof).
Proof.
  exact (proj2 (proof_transport_round_trip sample_proof) _ eq_refl).
Defined.

End Transport.

(** ** The grid: evaluator, coordinates and adjacency table together *)

Section GridGeometry.

Implicit Types p q v : Z.

Lemma on_grid_cases p :
  1 <= p <= 9 ->
  p = 1 \/ p = 2 \/ p = 3 \/ p = 4 \/ p = 5 \/ p = 6 \/ p = 7 \/ p = 8 \/ p = 9.
Proof. lia. Qed.

(** X1: adjacency is symmetric on the grid: the target is adjacent to the
    claimer exactly when the claimer is adjacent to the target. *)
Theorem adjacent_symmetric p q :
  1 <= p <= 9 -> 1 <= q <= 9 ->
  verifyClaimLocally p "adjacent" q = verifyClaimLocally q "adjacent" p.
Proof.
  intros Hp Hq. rewrite !adjacent_any by assumption.
  rewrite !rem_is_mod_on_grid by lia. fold (row p) (row q) (col p) (col q).
  do 2 f_equal. lia.
Qed.

Lemma adjacent_symmetric_witness :
  1 <= 2 <= 9 /\ 1 <= 5 <= 9
  /\ verifyClaimLocally 2 "adjacent" 5 = verifyClaimLocally 5 "adjacent" 2.
Proof.
  split; [lia |]. split; [lia |]. apply (adjacent_symmetric 2 5); lia.
Defined.

(** X2: on the grid the adjacency table and the evaluator agree: [q] is listed
    under [p] exactly when the adjacent claim of [p] about [q] is true. *)
Theorem ADJACENCY_MAP_agrees p q :
  1 <= p <= 9 -> 1 <= q <= 9 ->
  exists neighbours,
    Constants.ADJACENCY_MAP !! p = Some neighbours
    /\ verifyClaimLocally p "adjacent" q = Ok (bool_decide (q ∈ neighbours)).
Proof.
  intros Hp Hq.
  destruct (on_grid_cases p Hp) as [-> | [-> | [-> | [-> | [-> | [-> | [-> | [-> | ->]]]]]]]];
    (eexists; split; [vm_compute; reflexivity |]);
    destruct (on_grid_cases q Hq) as [-> | [-> | [-> | [-> | [-> | [-> | [-> | [-> | ->]]]]]]]];
    vm_compute; reflexivity.
Qed.

Lemma ADJACENCY_MAP_agrees_witness :
  1 <= 6 <= 9 /\ 1 <= 3 <= 9
  /\ exists neighbours,
       Constants.ADJACENCY_MAP !! 6 = Some neighbours
       /\ verifyClaimLocally 6 "adjacent" 3 = Ok (bool_decide (3 ∈ neighbours)).
Proof.
  split; [lia |]. split; [lia |]. apply (ADJACENCY_MAP_agrees 6 3); lia.
Defined.

(** X3: [cellToCoords] is a bijection between the cells 1..9 and the
    coordinates (0..2, 0..2): the coordinates of a cell are in range and
    give the cell back as 3 * row + col + 1, and every pair of coordinates
    in range is the image of that cell. *)
Theorem cellToCoords_bijection cell r c :
  (1 <= cell <= 9 ->
   0 <= Grid.row (Grid.cellToCoords cell) <= 2
   /\ 0 <= Grid.col (Grid.cellToCoords cell) <= 2
   /\ cell = 3 * Grid.row (Grid.cellToCoords cell)
             + Grid.col (Grid.cellToCoords cell) + 1)
  /\ (0 <= r <= 2 -> 0 <= c <= 2 ->
      1 <= 3 * r + c + 1 <= 9
      /\ Grid.cellToCoords (3 * r + c + 1) = {| Grid.row := r; Grid.col := c |}).
Proof.
  split.
  - intros Hcell. unfold Grid.cellToCoords. cbn [Grid.row Grid.col].
    rewrite Z.rem_mod_nonneg by lia.
    pose proof (Z.div_mod (cell - 1) 3 ltac:(lia)) as Hdm.
    pose proof (Z.mod_pos_bound (cell - 1) 3 ltac:(lia)) as Hm.
    assert (0 <= (cell - 1) / 3 < 3).
    { split; [apply Z.div_pos; lia | apply Z.div_lt_upper_bound; lia]. }
    lia.
  - intros Hr Hc. split; [lia |]. unfold Grid.cellToCoords.
    replace (3 * r + c + 1 - 1) with (c + r * 3) by lia.
    rewrite Z.rem_mod_nonneg by lia.
    rewrite Z.div_add, Z.mod_add by lia.
    rewrite Z.div_small, Z.mod_small by lia.
    f_equal.
Qed.

Lemma cellToCoords_bijection_witness :
  1 <= 8 <= 9 /\ 0 <= 2 <= 2 /\ 0 <= 1 <= 2
  /\ 8 = 3 * Grid.row (Grid.cellToCoords 8) + Grid.col (Grid.cellToCoords 8) + 1
  /\ Grid.cellToCoords (3 * 2 + 1 + 1) = {| Grid.row := 2; Grid.col := 1 |}.
Proof.
  split; [lia |]. split; [lia |]. split; [lia |]. split.
  - exact (proj2 (proj2 (proj1 (cellToCoords_bijection 8 2 1) ltac:(lia)))).
  - exact (proj2 (proj2 (cellToCoords_bijection 8 2 1) ltac:(lia) ltac:(lia))).
Defined.

(** X4: a true row claim and a true column claim together pin the position:
    if the evaluator accepts row [r] and column [c] for the same position,
    the position is the cell 3 * r + c + 1, the one [cellToCoords] maps to
    (r, c). *)
Theorem row_and_column_pin_position p r c :
  verifyClaimLocally p "row" r = Ok true ->
  verifyClaimLocally p "column" c = Ok true ->
  p = 3 * r + c + 1
  /\ Grid.cellToCoords p = {| Grid.row := r; Grid.col := c |}.
Proof.
  intros Hr Hc.
  assert (Hp : 1 <= p <= 9).
  { destruct (Z_lt_dec p 1) as [Hlt | Hge].
    - rewrite out_of_grid_throws in Hr by (left; exact Hlt). discriminate Hr.
    - destruct (Z_lt_dec 9 p) as [Hgt | Hle].
      + rewrite out_of_grid_throws in Hr by (right; exact Hgt). discriminate Hr.
      + lia. }
  rewrite row_claim in Hr by assumption.
  rewrite column_claim in Hc by assumption.
  injection Hr as Hr. injection Hc as Hc.
  apply bool_decide_eq_true in Hr. apply bool_decide_eq_true in Hc.
  unfold row in Hr. unfold col in Hc.
  pose proof (Z.div_mod (p - 1) 3 ltac:(lia)) as Hdm.
  split; [lia |].
  unfold Grid.cellToCoords. rewrite Z.rem_mod_nonneg by lia. now rewrite Hr, Hc.
Qed.

Lemma row_and_column_pin_position_witness :
  verifyClaimLocally 6 "row" 1 = Ok true
  /\ verifyClaimLocally 6 "column" 2 = Ok true
  /\ 6 = 3 * 1 + 2 + 1.
Proof.
  split; [reflexivity |]. split; [reflexivity |].
  exact (proj1 (row_and_column_pin_position 6 1 2 eq_refl eq_refl)).
Defined.

(** X5: adjacency in cell numbers: on the grid the adjacent claim is true
    exactly when the two cell numbers differ by 3, or differ by 1 and lie
    in the same row (cells 3 and 4 are consecutive and not adjacent). *)
Theorem adjacent_in_cell_numbers p q :
  1 <= p <= 9 -> 1 <= q <= 9 ->
  verifyClaimLocally p "adjacent" q
  = Ok (bool_decide (Z.abs (p - q) = 3 \/ (Z.abs (p - q) = 1 /\ row p = row q))).
Proof.
  intros Hp Hq.
  destruct (on_grid_cases p Hp) as [-> | [-> | [-> | [-> | [-> | [-> | [-> | [-> | ->]]]]]]]];
    destruct (on_grid_cases q Hq) as [-> | [-> | [-> | [-> | [-> | [-> | [-> | [-> | ->]]]]]]]];
    vm_compute; reflexivity.
Qed.

Lemma adjacent_in_cell_numbers_witness :
  1 <= 3 <= 9 /\ 1 <= 4 <= 9 /\ verifyClaimLocally 3 "adjacent" 4 = Ok false.
Proof.
  split; [lia |]. split; [lia |].
  exact (adjacent_in_cell_numbers 3 4 ltac:(lia) ltac:(lia)).
Defined.

End GridGeometry.

(** ** Proof generation at its edges *)

Section GenerationEdges.

Variable prover : Prover.



(** X6: with a position outside 1..9 [generateClaimProof] rejects with the
    position error and the prover is never called: the only event is the
    first log line. *)
Theorem generateClaimProof_invalid_position p ct v trace :
  p < 1 \/ 9 < p ->
  generateClaimProof prover p ct v trace
  = (Throw InvalidPosition,
     trace ++ [ConsoleLog "[ZK] Generating proof for claim:" (ClaimArgs p ct v)]).
Proof.
  intros Hp.
  unfold generateClaimProof, mbind, IO_bind, console_log, lift.
  now rewrite (out_of_grid_throws p ct v Hp).
Qed.


End GenerationEdges.

Lemma generateClaimProof_invalid_position_witness :
  (10 < 1 \/ 9 < 10)
  /\ generateClaimProof (fun _ _ _ => Throw TypeError) 10 "row" 0 []
     = (Throw InvalidPosition,
        [ConsoleLog "[ZK] Generating proof for claim:" (ClaimArgs 10 "row" 0)]).
Proof.
  assert (H : 10 < 1 \/ 9 < 10) by (right; lia).
  split; [exact H |].
  exact (generateClaimProof_invalid_position
           (fun _ _ _ => Throw TypeError) 10 "row" 0 [] H).
Defined.


(** ** The byte codec beyond decimal field elements *)

Section CodecEdges.

Lemma decimalToBytes32_BigInt s num :
  BigInt s = Ok num -> decimalToBytes32 s = Ok (big_endian 32 num).
Proof.
  intros H. unfold decimalToBytes32. rewrite H.
  cbn [mbind result_bind mret result_ret].
  rewrite decimalToBytes32_loop_spec by (unfold Uint8Array; rewrite length_replicate; lia).
  unfold Uint8Array. rewrite drop_ge by (rewrite length_replicate; lia).
  apply f_equal, app_nil_r.
Qed.

(** X8: whatever string it is given, decimal or not, [decimalToBytes32]
    returns nothing but 32 bytes, each in 0..255: the big-endian encoding
    of the low 256 bits of the integer [BigInt] read. *)
Theorem decimalToBytes32_always_32_bytes s bytes :
  decimalToBytes32 s = Ok bytes ->
  length bytes = 32%nat /\ Forall is_byte bytes
  /\ exists num, BigInt s = Ok num /\ big_endian_value bytes = num mod 2 ^ 256.
Proof.
  intros H. destruct (BigInt s) as [num | e] eqn:E.
  - rewrite (decimalToBytes32_BigInt s num E) in H.
    assert (Hb : bytes = big_endian 32 num) by congruence. subst bytes. clear H.
    split; [apply big_endian_length |]. split; [apply big_endian_bytes |].
    exists num. split; [reflexivity | apply (big_endian_value_encode 32 num)].
  - unfold decimalToBytes32 in H. rewrite E in H. discriminate H.
Qed.

Lemma decimalToBytes32_always_32_bytes_witness :
  decimalToBytes32 " 0x1F " = Ok (replicate 31 0 ++ [31])
  /\ length (replicate 31 0 ++ [31]) = 32%nat.
Proof.
  assert (H : decimalToBytes32 " 0x1F " = Ok (replicate 31 0 ++ [31]))
    by (vm_compute; reflexivity).
  split; [exact H |].
  exact (proj1 (decimalToBytes32_always_32_bytes " 0x1F " _ H)).
Defined.

Lemma decimal_value_nonneg s v : decimal_value s = Some v -> 0 <= v.
Proof.
  unfold decimal_value. destruct (NilZero.uint_of_string s) as [d |]; [| discriminate].
  intros [= <-]. unfold Z.of_uint. apply N2Z.is_nonneg.
Qed.

Lemma big_endian_32_inj v w :
  big_endian 32 v = big_endian 32 w -> v mod 2 ^ 256 = w mod 2 ^ 256.
Proof.
  intros H. apply (f_equal big_endian_value) in H.
  now rewrite !(big_endian_value_encode 32) in H.
Qed.

(** X9: two decimal strings get the same 32 bytes exactly when their values
    agree modulo 2^256; so distinct field elements below 2^256 never share
    an encoding, and leading zeros do not matter. *)
Theorem decimalToBytes32_same_bytes_iff s1 s2 v1 v2 :
  decimal_value s1 = Some v1 -> decimal_value s2 = Some v2 ->
  (decimalToBytes32 s1 = decimalToBytes32 s2 <-> v1 mod 2 ^ 256 = v2 mod 2 ^ 256)
  /\ (v1 < 2 ^ 256 -> v2 < 2 ^ 256 ->
      decimalToBytes32 s1 = decimalToBytes32 s2 -> v1 = v2).
Proof.
  intros H1 H2.
  rewrite (decimalToBytes32_decimal s1 v1 H1), (decimalToBytes32_decimal s2 v2 H2).
  assert (Hiff : Ok (big_endian 32 v1) = Ok (big_endian 32 v2)
                 <-> v1 mod 2 ^ 256 = v2 mod 2 ^ 256).
  { split.
    - intros E. apply big_endian_32_inj. congruence.
    - intros E. rewrite <- (big_endian_mod 32 v1), <- (big_endian_mod 32 v2).
      change (256 ^ Z.of_nat 32) with (2 ^ 256). now rewrite E. }
  split; [exact Hiff |].
  intros B1 B2 E. apply Hiff in E.
  pose proof (decimal_value_nonneg s1 v1 H1). pose proof (decimal_value_nonneg s2 v2 H2).
  rewrite !Z.mod_small in E by lia. exact E.
Qed.

Lemma decimalToBytes32_same_bytes_iff_witness :
  decimal_value "007" = Some 7 /\ decimal_value "7" = Some 7
  /\ decimalToBytes32 "007" = decimalToBytes32 "7".
Proof.
  split; [reflexivity |]. split; [reflexivity |].
  apply (proj1 (decimalToBytes32_same_bytes_iff "007" "7" 7 7 eq_refl eq_refl)).
  reflexivity.
Defined.

(** [BigInt] takes a minus sign in front of decimal digits. *)
Lemma BigInt_negative s v :
  decimal_value s = Some v -> BigInt (String "-" s) = Ok (- v).
Proof.
  unfold decimal_value, NilZero.uint_of_string. intros H.
  destruct s as [| c s]; [discriminate H |].
  destruct (NilEmpty.uint_of_string (String c s)) as [d |] eqn:E; [| discriminate H].
  injection H as <-.
  unfold BigInt, StringToBigInt.
  rewrite trim_id.
  2:{ cbn [list_ascii_of_string]. constructor; [reflexivity |].
      exact (digits_not_white_space (String c s) d E). }
  cbn [list_ascii_of_string].
  change (Ascii.eqb "-" "+") with false. change (Ascii.eqb "-" "-") with true.
  cbv iota. unfold parse_digits.
  pose proof (digits_value_reads (String c s) d 0 E) as Hv.
  cbn [list_ascii_of_string] in Hv. rewrite Hv.
  cbn [fmap option_fmap option_map]. now rewrite of_uint_fold.
Qed.

(** X10: a negative decimal string is not rejected: the bytes are the two's
    complement of the value on 256 bits. *)
Theorem decimalToBytes32_negative_wraps s v :
  decimal_value s = Some v ->
  exists bytes,
    decimalToBytes32 (String "-" s) = Ok bytes
    /\ big_endian_value bytes = (- v) mod 2 ^ 256
    /\ (0 < v <= 2 ^ 256 -> big_endian_value bytes = 2 ^ 256 - v).
Proof.
  intros H. exists (big_endian 32 (- v)).
  split; [apply decimalToBytes32_BigInt; now apply BigInt_negative |].
  pose proof (big_endian_value_encode 32 (- v)) as E.
  change (256 ^ Z.of_nat 32) with (2 ^ 256) in E.
  split; [exact E |]. intros Hv. rewrite E.
  replace (- v) with ((2 ^ 256 - v) + (-1) * 2 ^ 256) by lia.
  rewrite Z.mod_add by lia. apply Z.mod_small. lia.
Qed.

Lemma decimalToBytes32_negative_wraps_witness :
  decimal_value "1" = Some 1
  /\ exists bytes,
       decimalToBytes32 "-1" = Ok bytes
       /\ big_endian_value bytes = (- 1) mod 2 ^ 256.
Proof.
  split; [reflexivity |].
  destruct (decimalToBytes32_negative_wraps "1" 1 eq_refl) as (bytes & H & E & _).
  exists bytes. split; [exact H | exact E].
Defined.

Lemma trim_start_keeps c text :
  In c text -> is_StrWhiteSpaceChar c = false -> In c (trim_start text).
Proof.
  intros Hin Hc. induction text as [| h rest IH]; [destruct Hin |].
  cbn [trim_start]. destruct (is_StrWhiteSpaceChar h) eqn:Hh; [| exact Hin].
  destruct Hin as [-> | Hin]; [congruence | now apply IH].
Qed.

Lemma trim_keeps c text :
  In c text -> is_StrWhiteSpaceChar c = false -> In c (trim text).
Proof.
  intros Hin Hc. unfold trim. apply -> in_rev.
  apply trim_start_keeps; [| exact Hc]. apply -> in_rev.
  now apply trim_start_keeps.
Qed.

Lemma digits_value_stray c radix ds : forall acc,
  In c ds -> digit_of c = None -> digits_value radix acc ds = None.
Proof.
  induction ds as [| h rest IH]; intros acc Hin Hc; [destruct Hin |].
  cbn [digits_value]. destruct Hin as [-> | Hin]; [now rewrite Hc |].
  destruct (digit_of h) as [d |]; [| reflexivity].
  destruct (d <? radix); [now apply IH | reflexivity].
Qed.

Lemma parse_digits_stray c radix ds :
  In c ds -> digit_of c = None -> parse_digits radix ds = None.
Proof.
  intros Hin Hc. destruct ds as [| h rest]; [destruct Hin |].
  now apply (digits_value_stray c).
Qed.

Lemma radix_prefix_Some h rest radix ds :
  radix_prefix h rest = Some (radix, ds) ->
  h = "0"%char
  /\ exists p, rest = p :: ds
       /\ (Ascii.eqb p "x" || Ascii.eqb p "X" || Ascii.eqb p "o"
           || Ascii.eqb p "O" || Ascii.eqb p "b" || Ascii.eqb p "B") = true.
Proof.
  unfold radix_prefix. destruct (Ascii.eqb_spec h "0") as [-> | _]; [| discriminate].
  destruct rest as [| p ds']; [discriminate |]. intros H. split; [reflexivity |].
  exists p.
  destruct (Ascii.eqb p "x"), (Ascii.eqb p "X"), (Ascii.eqb p "o"),
    (Ascii.eqb p "O"), (Ascii.eqb p "b"), (Ascii.eqb p "B");
    cbn [orb] in *; try discriminate H; injection H as _ <-; split; reflexivity.
Qed.

Lemma stray_facts c :
  stray c = true ->
  digit_of c = None /\ is_StrWhiteSpaceChar c = false
  /\ Ascii.eqb c "+" = false /\ Ascii.eqb c "-" = false
  /\ Ascii.eqb c "x" = false /\ Ascii.eqb c "X" = false
  /\ Ascii.eqb c "o" = false /\ Ascii.eqb c "O" = false.
Proof.
  unfold stray. intros H.
  repeat (apply andb_prop in H; destruct H as [H ?]).
  repeat match goal with
         | Hn : negb _ = true |- _ => apply negb_true_iff in Hn
         end.
  destruct (digit_of c); [discriminate H |]. repeat split; assumption.
Qed.

(** X11: a stray character anywhere in the string (a decimal point, a comma, a
    letter that is no digit) makes [decimalToBytes32] throw a syntax error:
    no bytes are produced from a malformed field element. *)
Theorem decimalToBytes32_rejects_stray s c :
  In c (list_ascii_of_string s) -> stray c = true ->
  decimalToBytes32 s = Throw SyntaxError.
Proof.
  intros Hin Hstray.
  destruct (stray_facts c Hstray) as (Hd & Hws & Hplus & Hminus & Hx & HX & Ho & HO).
  assert (E : StringToBigInt s = None).
  { unfold StringToBigInt.
    pose proof (trim_keeps c _ Hin Hws) as Ht.
    destruct (trim (list_ascii_of_string s)) as [| h rest]; [destruct Ht |].
    assert (Hrest : forall b, Ascii.eqb h b = true -> Ascii.eqb c b = false -> In c rest).
    { intros b Hhb Hcb. destruct Ht as [-> | Ht]; [congruence | exact Ht]. }
    destruct (Ascii.eqb h "+") eqn:E1.
    { apply (parse_digits_stray c); [now apply (Hrest "+"%char) | exact Hd]. }
    destruct (Ascii.eqb h "-") eqn:E2.
    { rewrite (parse_digits_stray c); [reflexivity | now apply (Hrest "-"%char) | exact Hd]. }
    destruct (radix_prefix h rest) as [[radix ds] |] eqn:E3.
    - destruct (radix_prefix_Some h rest radix ds E3) as (-> & p & -> & Hp).
      apply (parse_digits_stray c); [| exact Hd].
      destruct Ht as [<- | [<- | Ht]]; [discriminate Hd | | exact Ht].
      rewrite Hx, HX, Ho, HO in Hp. cbn [orb] in Hp.
      apply orb_prop in Hp.
      destruct Hp as [Hp | Hp]; apply Ascii.eqb_eq in Hp; subst; discriminate Hd.
    - apply (parse_digits_stray c); [exact Ht | exact Hd]. }
  unfold decimalToBytes32, BigInt. now rewrite E.
Qed.

Lemma decimalToBytes32_rejects_stray_witness :
  In "."%char (list_ascii_of_string "12.5") /\ stray "." = true
  /\ decimalToBytes32 "12.5" = Throw SyntaxError.
Proof.
  assert (Hin : In "."%char (list_ascii_of_string "12.5")).
  { cbn. right. right. left. reflexivity. }
  split; [exact Hin |]. split; [reflexivity |].
  exact (decimalToBytes32_rejects_stray "12.5" "." Hin eq_refl).
Defined.

Lemma g1PointToBytes_short point :
  short_G1 point -> exists e, g1PointToBytes point = Throw e.
Proof.
  unfold short_G1, g1PointToBytes. intros Hlen.
  destruct point as [| x [| y tail]]; cbn [length] in Hlen; [| | lia].
  - eexists. reflexivity.
  - cbn [lookup list_lookup defined mbind result_bind].
    destruct (decimalToBytes32 x); eexists; reflexivity.
Qed.

Lemma g2PointToBytes_short point :
  short_G2 point -> exists e, g2PointToBytes point = Throw e.
Proof.
  unfold short_G2, g2PointToBytes. intros [Hlen | (axis & Hax & Hlen)].
  - destruct point as [| ax [| ay tail]]; cbn [length] in Hlen; [| | lia].
    + eexists. reflexivity.
    + cbn [lookup list_lookup defined mbind result_bind].
      destruct (defined (ax !! 0%nat)) as [p00 |]; cbn [mbind result_bind];
        [| eexists; reflexivity].
      destruct (decimalToBytes32 p00); cbn [mbind result_bind]; [| eexists; reflexivity].
      destruct (defined (ax !! 1%nat)) as [p01 |]; cbn [mbind result_bind];
        [| eexists; reflexivity].
      destruct (decimalToBytes32 p01); eexists; reflexivity.
  - destruct point as [| ax [| ay tail]];
      [destruct Hax as [Hax | Hax]; discriminate Hax | |].
    + cbn [lookup list_lookup defined mbind result_bind].
      destruct (defined (ax !! 0%nat)) as [p00 |]; cbn [mbind result_bind];
        [| eexists; reflexivity].
      destruct (decimalToBytes32 p00); cbn [mbind result_bind]; [| eexists; reflexivity].
      destruct (defined (ax !! 1%nat)) as [p01 |]; cbn [mbind result_bind];
        [| eexists; reflexivity].
      destruct (decimalToBytes32 p01); eexists; reflexivity.
    + cbn [lookup list_lookup defined mbind result_bind].
      cbn [lookup list_lookup] in Hax.
      destruct Hax as [[= ->] | [= ->]].
      * destruct axis as [| u0 [| u1 utail]]; cbn [length] in Hlen; [| | lia];
          cbn [lookup list_lookup defined mbind result_bind];
          [eexists; reflexivity |].
        destruct (decimalToBytes32 u0); eexists; reflexivity.
      * destruct (defined (ax !! 0%nat)) as [p00 |]; cbn [mbind result_bind];
          [| eexists; reflexivity].
        destruct (decimalToBytes32 p00); cbn [mbind result_bind]; [| eexists; reflexivity].
        destruct (defined (ax !! 1%nat)) as [p01 |]; cbn [mbind result_bind];
          [| eexists; reflexivity].
        destruct (decimalToBytes32 p01); cbn [mbind result_bind]; [| eexists; reflexivity].
        destruct axis as [| u0 [| u1 utail]]; cbn [length] in Hlen; [| | lia];
          cbn [lookup list_lookup defined mbind result_bind];
          [eexists; reflexivity |].
        destruct (decimalToBytes32 u0); eexists; reflexivity.
Qed.

(** X12: a proof that lacks a coordinate is never converted: when [pi_a] or
    [pi_c] has fewer than two coordinates, or [pi_b] fewer than two axes or
    a first or second axis with fewer than two components,
    [convertSnarkjsProofToContract] throws and returns no bytes. *)
Theorem convertSnarkjsProofToContract_needs_coordinates proof :
  short_G1 (Snarkjs.pi_a proof) \/ short_G2 (Snarkjs.pi_b proof)
  \/ short_G1 (Snarkjs.pi_c proof) ->
  exists e, convertSnarkjsProofToContract proof = Throw e.
Proof.
  intros H. unfold convertSnarkjsProofToContract.
  destruct (g1PointToBytes (Snarkjs.pi_a proof)) as [a |] eqn:Ea;
    cbn [mbind result_bind]; [| eexists; reflexivity].
  destruct (g2PointToBytes (Snarkjs.pi_b proof)) as [b |] eqn:Eb;
    cbn [mbind result_bind]; [| eexists; reflexivity].
  destruct (g1PointToBytes (Snarkjs.pi_c proof)) as [c |] eqn:Ec;
    cbn [mbind result_bind]; [| eexists; reflexivity].
  exfalso. destruct H as [H | [H | H]].
  - destruct (g1PointToBytes_short _ H) as [e He]. congruence.
  - destruct (g2PointToBytes_short _ H) as [e He]. congruence.
  - destruct (g1PointToBytes_short _ H) as [e He]. congruence.
Qed.

End CodecEdges.

Lemma convertSnarkjsProofToContract_needs_coordinates_witness :
  short_G2 [["1"; "2"]; ["3"]]
  /\ exists e,
       convertSnarkjsProofToContract
         {| Snarkjs.pi_a := ["1"; "2"; "1"]; Snarkjs.pi_b := [["1"; "2"]; ["3"]];
            Snarkjs.pi_c := ["5"; "6"; "1"]; Snarkjs.protocol := "groth16";
            Snarkjs.curve := "bn128" |} = Throw e.
Proof.
  assert (H : short_G2 [["1"; "2"]; ["3"]]).
  { right. exists ["3"]. split; [right; reflexivity | cbn; lia]. }
  split; [exact H |].
  apply convertSnarkjsProofToContract_needs_coordinates. right. left. exact H.
Defined.

Section CodecInjective.

Lemma denotes_bytes s v :
  denotes s v ->
  decimalToBytes32 s = Ok (big_endian 32 v) /\ length (big_endian 32 v) = 32%nat.
Proof.
  intros [H _]. split; [now apply decimalToBytes32_decimal | apply big_endian_length].
Qed.

Lemma denotes_inj s v s' v' :
  denotes s v -> denotes s' v' -> big_endian 32 v = big_endian 32 v' -> v = v'.
Proof.
  intros [H B] [H' B'] E. apply big_endian_32_inj in E.
  pose proof (decimal_value_nonneg s v H). pose proof (decimal_value_nonneg s' v' H').
  rewrite !Z.mod_small in E by lia. exact E.
Qed.

Lemma g1PointToBytes_denotes x y tail vx vy :
  denotes x vx -> denotes y vy ->
  g1PointToBytes (x :: y :: tail) = Ok (big_endian 32 vx ++ big_endian 32 vy).
Proof.
  intros Hx Hy.
  destruct (denotes_bytes x vx Hx) as [Ex Lx].
  destruct (denotes_bytes y vy Hy) as [Ey Ly].
  now apply g1PointToBytes_layout.
Qed.

Lemma g2PointToBytes_denotes xr xi yr yi tail vxr vxi vyr vyi :
  denotes xr vxr -> denotes xi vxi -> denotes yr vyr -> denotes yi vyi ->
  g2PointToBytes ([xr; xi] :: [yr; yi] :: tail)
  = Ok (big_endian 32 vxi ++ big_endian 32 vxr
        ++ big_endian 32 vyi ++ big_endian 32 vyr).
Proof.
  intros Hxr Hxi Hyr Hyi.
  destruct (denotes_bytes xr vxr Hxr) as [Exr Lxr].
  destruct (denotes_bytes xi vxi Hxi) as [Exi Lxi].
  destruct (denotes_bytes yr vyr Hyr) as [Eyr Lyr].
  destruct (denotes_bytes yi vyi Hyi) as [Eyi Lyi].
  now apply g2PointToBytes_layout.
Qed.

Lemma big_endian_32_app_inj v w l l' :
  big_endian 32 v ++ l = big_endian 32 w ++ l' ->
  big_endian 32 v = big_endian 32 w /\ l = l'.
Proof.
  intros E. apply app_inj_1 in E; [exact E |].
  now rewrite !big_endian_length.
Qed.

(** X13: the point encoders lose nothing on field elements: two G1 points with
    the same 64 bytes have the same x and y, and two G2 points with the
    same 128 bytes have the same four components. *)
Theorem point_encoders_injective :
  (forall x y t vx vy x' y' t' vx' vy',
      denotes x vx -> denotes y vy -> denotes x' vx' -> denotes y' vy' ->
      g1PointToBytes (x :: y :: t) = g1PointToBytes (x' :: y' :: t') ->
      vx = vx' /\ vy = vy')
  /\ (forall xr xi yr yi t vxr vxi vyr vyi xr' xi' yr' yi' t' vxr' vxi' vyr' vyi',
        denotes xr vxr -> denotes xi vxi -> denotes yr vyr -> denotes yi vyi ->
        denotes xr' vxr' -> denotes xi' vxi' -> denotes yr' vyr' -> denotes yi' vyi' ->
        g2PointToBytes ([xr; xi] :: [yr; yi] :: t)
        = g2PointToBytes ([xr'; xi'] :: [yr'; yi'] :: t') ->
        vxr = vxr' /\ vxi = vxi' /\ vyr = vyr' /\ vyi = vyi').
Proof.
  split.
  - intros x y t vx vy x' y' t' vx' vy' Hx Hy Hx' Hy' E.
    rewrite (g1PointToBytes_denotes x y t vx vy Hx Hy) in E.
    rewrite (g1PointToBytes_denotes x' y' t' vx' vy' Hx' Hy') in E.
    assert (E' : big_endian 32 vx ++ big_endian 32 vy
                 = big_endian 32 vx' ++ big_endian 32 vy') by congruence.
    clear E. apply big_endian_32_app_inj in E' as [E1 E2].
    split; [exact (denotes_inj x vx x' vx' Hx Hx' E1)
           | exact (denotes_inj y vy y' vy' Hy Hy' E2)].
  - intros xr xi yr yi t vxr vxi vyr vyi xr' xi' yr' yi' t' vxr' vxi' vyr' vyi'
      Hxr Hxi Hyr Hyi Hxr' Hxi' Hyr' Hyi' E.
    rewrite (g2PointToBytes_denotes xr xi yr yi t _ _ _ _ Hxr Hxi Hyr Hyi) in E.
    rewrite (g2PointToBytes_denotes xr' xi' yr' yi' t' _ _ _ _ Hxr' Hxi' Hyr' Hyi') in E.
    assert (E' : big_endian 32 vxi ++ big_endian 32 vxr
                   ++ big_endian 32 vyi ++ big_endian 32 vyr
                 = big_endian 32 vxi' ++ big_endian 32 vxr'
                   ++ big_endian 32 vyi' ++ big_endian 32 vyr') by congruence.
    clear E. apply big_endian_32_app_inj in E' as [E1 E'].
    apply big_endian_32_app_inj in E' as [E2 E'].
    apply big_endian_32_app_inj in E' as [E3 E4].
    repeat split; eapply denotes_inj; eassumption.
Qed.

(** X14: a G2 point is encoded as two G1-style encodings, one an axis, each
    with the pair swapped: the bytes of [[xr, xi], [yr, yi]] are those of
    the G1 points [xi, xr] and [yi, yr] one after the other. *)
Theorem g2PointToBytes_is_two_swapped_g1 xr xi yr yi tail :
  FieldElement xr -> FieldElement xi -> FieldElement yr -> FieldElement yi ->
  exists bx by_,
    g1PointToBytes [xi; xr] = Ok bx /\ g1PointToBytes [yi; yr] = Ok by_
    /\ g2PointToBytes ([xr; xi] :: [yr; yi] :: tail) = Ok (bx ++ by_).
Proof.
  intros Fxr Fxi Fyr Fyi.
  destruct (FieldElement_bytes _ Fxr) as (bxr & Hxr & Lxr).
  destruct (FieldElement_bytes _ Fxi) as (bxi & Hxi & Lxi).
  destruct (FieldElement_bytes _ Fyr) as (byr & Hyr & Lyr).
  destruct (FieldElement_bytes _ Fyi) as (byi & Hyi & Lyi).
  exists (bxi ++ bxr), (byi ++ byr).
  split; [now apply g1PointToBytes_layout |].
  split; [now apply g1PointToBytes_layout |].
  rewrite <- app_assoc. now apply g2PointToBytes_layout.
Qed.

End CodecInjective.

Lemma point_encoders_injective_witness :
  denotes "1" 1 /\ denotes "2" 2 /\ denotes "01" 1 /\ denotes "002" 2
  /\ g1PointToBytes ["1"; "2"] = g1PointToBytes ["01"; "002"; "1"]
  /\ (1 = 1 /\ 2 = 2).
Proof.
  assert (D : forall s v, decimal_value s = Some v -> v < 2 ^ 256 -> denotes s v)
    by (intros s v H B; split; assumption).
  pose proof (D "1" 1 eq_refl eq_refl) as D1.
  pose proof (D "2" 2 eq_refl eq_refl) as D2.
  pose proof (D "01" 1 eq_refl eq_refl) as D3.
  pose proof (D "002" 2 eq_refl eq_refl) as D4.
  assert (E : g1PointToBytes ["1"; "2"] = g1PointToBytes ["01"; "002"; "1"])
    by (vm_compute; reflexivity).
  repeat (split; [assumption |]).
  exact (proj1 point_encoders_injective "1" "2" [] 1 2 "01" "002" ["1"] 1 2
           D1 D2 D3 D4 E).
Defined.

Lemma g2PointToBytes_is_two_swapped_g1_witness :
  FieldElement "1" /\ FieldElement "2" /\ FieldElement "3" /\ FieldElement "4"
  /\ exists bx by_,
       g1PointToBytes ["2"; "1"] = Ok bx /\ g1PointToBytes ["4"; "3"] = Ok by_
       /\ g2PointToBytes [["1"; "2"]; ["3"; "4"]] = Ok (bx ++ by_).
Proof.
  assert (F : forall s v, decimal_value s = Some v -> FieldElement s)
    by (intros s v H; exists v; exact H).
  pose proof (F "1" 1 eq_refl) as F1. pose proof (F "2" 2 eq_refl) as F2.
  pose proof (F "3" 3 eq_refl) as F3. pose proof (F "4" 4 eq_refl) as F4.
  repeat (split; [assumption |]).
  exact (g2PointToBytes_is_two_swapped_g1 "1" "2" "3" "4" [] F1 F2 F3 F4).
Defined.

(** ** Proof transport: what the text looks like *)

Section TransportText.

Import JSON.

Lemma map_JString_inj l l' : map JString l = map JString l' -> l = l'.
Proof.
  revert l'. induction l as [| s l IH]; intros [| s' l'] E;
    cbn [map] in E; try discriminate E; [reflexivity |].
  injection E as -> E. f_equal. now apply IH.
Qed.

Lemma map_axis_inj (l l' : list (list string)) :
  map (fun axis => JArray (map JString axis)) l
  = map (fun axis => JArray (map JString axis)) l' -> l = l'.
Proof.
  revert l'. induction l as [| a l IH]; intros [| a' l'] E;
    cbn [map] in E; try discriminate E; [reflexivity |].
  injection E as Ea E. f_equal; [now apply map_JString_inj | now apply IH].
Qed.

Lemma Groth16Proof_value_inj p q :
  Groth16Proof_value p = Groth16Proof_value q -> p = q.
Proof.
  destruct p as [a b c pr cu], q as [a' b' c' pr' cu'].
  unfold Groth16Proof_value. cbn [Snarkjs.pi_a Snarkjs.pi_b Snarkjs.pi_c
                                   Snarkjs.protocol Snarkjs.curve].
  intros E. injection E as Ea Eb Ec -> ->.
  apply map_JString_inj in Ea. apply map_axis_inj in Eb.
  apply map_JString_inj in Ec. now subst.
Qed.

(** X15: two proofs with the same serialized text are the same proof, field by
    field: transport identifies no two proofs. *)
Theorem serializeProof_injective p q :
  serializeProof (Groth16Proof_value p) = serializeProof (Groth16Proof_value q) ->
  p = q.
Proof.
  intros E. apply (f_equal deserializeProof) in E.
  rewrite !deserialize_serialize in E by apply well_formed_Groth16Proof_value.
  apply Groth16Proof_value_inj. congruence.
Qed.

Lemma serializeProof_injective_witness :
  serializeProof (Groth16Proof_value sample_proof)
  = serializeProof (Groth16Proof_value sample_proof)
  /\ sample_proof = sample_proof.
Proof.
  split; [reflexivity |]. exact (serializeProof_injective _ _ eq_refl).
Defined.

Lemma quote_code_unit_no_control c : Forall no_control (quote_code_unit c).
Proof.
  destruct c as [[] [] [] [] [] [] [] []]; repeat constructor.
Qed.

Lemma QuoteJSONString_no_control s : Forall no_control (QuoteJSONString s).
Proof.
  unfold QuoteJSONString. constructor; [reflexivity |].
  apply Forall_app. split; [| repeat constructor].
  induction (list_ascii_of_string s) as [| c l IH]; cbn [flat_map]; [constructor |].
  apply Forall_app. split; [apply quote_code_unit_no_control | exact IH].
Qed.

Lemma join_comma_no_control texts :
  Forall (Forall no_control) texts -> Forall no_control (join_comma texts).
Proof.
  induction 1 as [| t ts Ht Hts IH]; [constructor |].
  destruct ts as [| t' ts]; [exact Ht |].
  change (join_comma (t :: t' :: ts)) with (t ++ ","%char :: join_comma (t' :: ts)).
  apply Forall_app. split; [exact Ht |]. constructor; [reflexivity | exact IH].
Qed.

(** X16: the serialized text of any value holds no control character: line
    breaks, tabs and the like inside strings are written as escapes, so the
    text stays on one line. *)
Theorem serializeProof_no_control_characters v :
  Forall no_control (list_ascii_of_string (serializeProof v)).
Proof.
  unfold serializeProof, stringify. rewrite list_ascii_of_string_of_list_ascii.
  induction v as [| b | s | elements IH | properties IH] using json_induction.
  - repeat constructor.
  - destruct b; repeat constructor.
  - apply QuoteJSONString_no_control.
  - cbn [SerializeJSONProperty]. constructor; [reflexivity |].
    apply Forall_app. split; [| repeat constructor].
    apply join_comma_no_control.
    induction IH as [| x l Hx _ IHl]; cbn [map]; constructor; assumption.
  - rewrite SerializeJSONProperty_object. constructor; [reflexivity |].
    apply Forall_app. split; [| repeat constructor].
    apply join_comma_no_control.
    induction IH as [| [k x] l Hx _ IHl]; cbn [map]; constructor; [| exact IHl].
    unfold member_text. cbn [fst snd] in *.
    apply Forall_app. split; [apply QuoteJSONString_no_control |].
    constructor; [reflexivity | exact Hx].
Qed.

End TransportText.

(** ** Local verification and the cache of the verification key *)

Section Verification.

Import ZkVerify.

Context {Value : Type}.
Variable ToBoolean : Value -> bool.
Variable fetch : @Fetcher Value.
Variable verify : @Verifier Value.

Implicit Types w : @World Value.

Lemma loadVerificationKey_cached w :
  ToBoolean (vkCache w) = true ->
  loadVerificationKey ToBoolean fetch w = (Ok (vkCache w), w).
Proof.
  intros H. unfold loadVerificationKey, mbind, Async_bind, read_vkCache.
  now rewrite H.
Qed.

Lemma verifyProof_cached_run proof publicSignals w b :
  ToBoolean (vkCache w) = true ->
  verify (vkCache w) publicSignals proof = Ok b ->
  verifyProof ToBoolean fetch verify proof publicSignals w
  = (Ok b,
     {| vkCache := vkCache w;
        events := events w
                  ++ cached_verification_events (vkCache w) proof publicSignals b |}).
Proof.
  intros Hc Hv. unfold verifyProof, mbind, Async_bind, emit.
  rewrite loadVerificationKey_cached by exact Hc.
  unfold await, mret, Async_ret. cbn [vkCache events]. rewrite Hv.
  unfold cached_verification_events. now rewrite <- !app_assoc.
Qed.

(** X17: once a key is cached, [verifyProof] never fetches: whatever [fetch]
    would answer, the cached key goes to the verifier, the verdict or the
    verifier's failure is passed on, and the cache is left as it is. *)
Theorem verifyProof_uses_cached_key proof publicSignals w :
  ToBoolean (vkCache w) = true ->
  (forall b,
      verify (vkCache w) publicSignals proof = Ok b ->
      verifyProof ToBoolean fetch verify proof publicSignals w
      = (Ok b,
         {| vkCache := vkCache w;
            events := events w
                      ++ cached_verification_events (vkCache w) proof publicSignals b |}))
  /\ (forall e,
        verify (vkCache w) publicSignals proof = Throw e ->
        verifyProof ToBoolean fetch verify proof publicSignals w
        = (Throw e,
           {| vkCache := vkCache w;
              events := events w
                        ++ [Zk (ConsoleLog "[ZK] Verifying proof..." NoArgs);
                            Groth16Verify (vkCache w) publicSignals proof] |})).
Proof.
  intros Hc. split.
  - intros b Hv. now apply verifyProof_cached_run.
  - intros e Hv. unfold verifyProof, mbind, Async_bind, emit.
    rewrite loadVerificationKey_cached by exact Hc.
    unfold await. cbn [vkCache events]. rewrite Hv.
    now rewrite <- !app_assoc.
Qed.


(** X19: when the key cannot be loaded, [verifyProof] fails before the verifier
    is called and the cache stays empty, so that the next call tries again:
    a response that is not ok gives the error with its status text, a
    failing [fetch] gives its own error. *)
Theorem verifyProof_load_failure proof publicSignals w :
  ToBoolean (vkCache w) = false ->
  (forall response,
      fetch VK_PATH = Ok response -> ok response = false ->
      verifyProof ToBoolean fetch verify proof publicSignals w
      = (Throw (Error (String.append "Failed to load verification key: "
                         (statusText response))),
         {| vkCache := vkCache w;
            events := events w
                      ++ [Zk (ConsoleLog "[ZK] Verifying proof..." NoArgs);
                          Fetch VK_PATH] |}))
  /\ (forall e,
        fetch VK_PATH = Throw e ->
        verifyProof ToBoolean fetch verify proof publicSignals w
        = (Throw e,
           {| vkCache := vkCache w;
              events := events w
                        ++ [Zk (ConsoleLog "[ZK] Verifying proof..." NoArgs);
                            Fetch VK_PATH] |})).
Proof.
  intros Hc. split.
  - intros response Hf Hok.
    unfold verifyProof, loadVerificationKey, mbind, Async_bind, emit,
      read_vkCache, await, throw.
    cbn [vkCache events]. rewrite Hc, Hf, Hok. cbn [negb vkCache events].
    now rewrite <- !app_assoc.
  - intros e Hf.
    unfold verifyProof, loadVerificationKey, mbind, Async_bind, emit,
      read_vkCache, await.
    cbn [vkCache events]. rewrite Hc, Hf. cbn [vkCache events].
    now rewrite <- !app_assoc.
Qed.

(** X20: with a position outside 1..9 [generateAndVerifyProof] fails with the
    position error before anything external happens: no prover call, no
    fetch, no verifier call, and the cache is untouched. *)
Theorem generateAndVerifyProof_invalid_position prover p ct v w :
  p < 1 \/ 9 < p ->
  generateAndVerifyProof ToBoolean prover fetch verify p ct v w
  = (Throw InvalidPosition,
     {| vkCache := vkCache w;
        events := events w
                  ++ [Zk (ConsoleLog "[ZK] Generating proof for claim:"
                            (ClaimArgs p ct v))] |}).
Proof.
  intros Hp. unfold generateAndVerifyProof, mbind, Async_bind, run_zk.
  unfold generateClaimProof, mbind, IO_bind, console_log, lift.
  now rewrite (out_of_grid_throws p ct v Hp).
Qed.


End Verification.

Lemma verifyProof_uses_cached_key_witness :
  ZkVerify.truthy ZkVerify.sample_vk = true
  /\ fst (ZkVerify.verifyProof ZkVerify.truthy (fun _ => Throw TypeError) (fun _ _ _ => Ok true)
            sample_proof ["1"]
            {| ZkVerify.vkCache := ZkVerify.sample_vk; ZkVerify.events := [] |})
     = Ok true.
Proof.
  split; [reflexivity |].
  rewrite (proj1 (verifyProof_uses_cached_key ZkVerify.truthy
                    (fun _ => Throw TypeError) (fun _ _ _ => Ok true)
                    sample_proof ["1"]
                    {| ZkVerify.vkCache := ZkVerify.sample_vk; ZkVerify.events := [] |}
                    eq_refl) true eq_refl).
  reflexivity.
Defined.


Lemma verifyProof_load_failure_witness :
  ZkVerify.truthy JSON.JNull = false
  /\ fst (ZkVerify.verifyProof ZkVerify.truthy (fun _ => Ok ZkVerify.not_found_response)
            (fun _ _ _ => Ok true) sample_proof ["1"]
            {| ZkVerify.vkCache := JSON.JNull; ZkVerify.events := [] |})
     = Throw (Error "Failed to load verification key: Not Found").
Proof.
  split; [reflexivity |].
  rewrite (proj1 (verifyProof_load_failure ZkVerify.truthy
                    (fun _ => Ok ZkVerify.not_found_response) (fun _ _ _ => Ok true)
                    sample_proof ["1"]
                    {| ZkVerify.vkCache := JSON.JNull; ZkVerify.events := [] |}
                    eq_refl) ZkVerify.not_found_response eq_refl eq_refl).
  reflexivity.
Defined.

Lemma generateAndVerifyProof_invalid_position_witness :
  (0 < 1 \/ 9 < 0)
  /\ fst (ZkVerify.generateAndVerifyProof ZkVerify.truthy
            (fun _ _ _ => Throw TypeError) (fun _ => Throw TypeError)
            (fun _ _ _ => Ok true) 0 "row" 0
            {| ZkVerify.vkCache := JSON.JNull; ZkVerify.events := [] |})
     = Throw InvalidPosition.
Proof.
  assert (H : 0 < 1 \/ 9 < 0) by (left; lia).
  split; [exact H |].
  now rewrite (generateAndVerifyProof_invalid_position ZkVerify.truthy
                 (fun _ => Throw TypeError) (fun _ _ _ => Ok true)
                 (fun _ _ _ => Throw TypeError) 0 "row" 0 _ H).
Defined.


(** ** The blockchain service: guards, failures and the singleton *)

Section ServiceProperties.

Import Chain.

Context {Tx Signer MethodOptions Game Claims : Type}.
Variable host : @Host Tx Signer MethodOptions Game Claims.
Variable this : @DivineWrathBlockchainService Signer.

Implicit Types w : @World Tx Signer MethodOptions.

(** X22: [attack] checks the cell first: outside 1..9 it throws before a client
    is built or a transaction prepared, and leaves no event. *)
Theorem attack_checks_cell sessionId godAddress cell hitMortal signer w :
  cell < 1 \/ 9 < cell ->
  attack host this sessionId godAddress cell hitMortal signer w
  = (Throw (Error "Cell must be between 1 and 9"), w).
Proof.
  intros Hcell. unfold attack.
  replace ((cell <? 1) || (cell >? 9)) with true; [reflexivity |].
  symmetry. apply orb_true_iff. destruct Hcell; [left | right]; lia.
Qed.

(** X23: [startGame] needs exactly three mortals: with any other number it
    throws before a client is built or a transaction prepared. *)
Theorem startGame_needs_three_mortals sessionId god mortals caller signer w :
  length mortals <> 3%nat ->
  startGame host this sessionId god mortals caller signer w
  = (Throw (Error "Exactly 3 mortals required"), w).
Proof.
  intros Hlen. unfold startGame.
  destruct (Nat.eqb_spec (length mortals) 3) as [E | _]; [contradiction |].
  reflexivity.
Qed.

(** X24: a proof that cannot be converted is never sent: [submitClaim] and
    [submitClaimRelayed] build their client, fail with the error of the
    conversion, and no transaction is built, simulated or sent. *)
Theorem malformed_proof_is_not_sent
    sessionId mortal claimType claimValue expected proof signer admin e w :
  convertSnarkjsProofToContract proof = Throw e ->
  (exists client,
      submitClaim host this sessionId mortal claimType claimValue expected
        proof signer w
      = (Throw e, {| serviceInstance := serviceInstance w;
                     trace := trace w ++ [NewClient client] |})
      /\ publicKey client = Some mortal)
  /\ (exists client,
        submitClaimRelayed host this sessionId mortal claimType claimValue
          expected proof admin signer w
        = (Throw e, {| serviceInstance := serviceInstance w;
                       trace := trace w ++ [NewClient client] |})
        /\ publicKey client = Some admin).
Proof.
  intros Hc. split; eexists; split.
  - unfold submitClaim, createSigningClient, new_client, mbind, Run_bind,
      emit, lift, mret, Run_ret.
    cbn [serviceInstance trace]. rewrite Hc. reflexivity.
  - reflexivity.
  - unfold submitClaimRelayed, createSigningClient, new_client, mbind, Run_bind,
      emit, lift, mret, Run_ret.
    cbn [serviceInstance trace]. rewrite Hc. reflexivity.
  - reflexivity.
Qed.


(** X26: [getGame] and [getClaims] never throw: a rejected call, a failed
    simulation and an error answer of the contract are all reported as
    null; a value is returned only when the simulation answers with one. *)
Theorem getters_report_failure_as_null sessionId w :
  fst (getGame host this sessionId w)
  = Ok match invoke host (baseClient this) (call_get_game sessionId) None with
       | Ok tx =>
           match simulate_game host tx with
           | Ok (ROk game) => Some game
           | _ => None
           end
       | Throw _ => None
       end
  /\ fst (getClaims host this sessionId w)
     = Ok match invoke host (baseClient this) (call_get_claims sessionId) None with
          | Ok tx =>
              match simulate_claims host tx with
              | Ok (ROk claims) => Some claims
              | _ => None
              end
          | Throw _ => None
          end.
Proof.
  split.
  - unfold getGame, try_catch, mbind, Run_bind, await, emit, mret, Run_ret.
    destruct (invoke host (baseClient this) (call_get_game sessionId) None) as [tx |];
      [| reflexivity].
    destruct (simulate_game host tx) as [[game |] |]; reflexivity.
  - unfold getClaims, try_catch, mbind, Run_bind, await, emit, mret, Run_ret.
    destruct (invoke host (baseClient this) (call_get_claims sessionId) None) as [tx |];
      [| reflexivity].
    destruct (simulate_claims host tx) as [[claims |] |]; reflexivity.
Qed.

(** X27: [getDivineWrathBlockchainService] always returns a service for the
    contract asked for and remembers it; asking again for the same contract
    returns that very service and builds no new client. *)
Theorem service_singleton contractId w :
  exists service w1,
    getDivineWrathBlockchainService host contractId w = (Ok service, w1)
    /\ service_contractId service = contractId
    /\ serviceInstance w1 = Some service
    /\ getDivineWrathBlockchainService host contractId w1 = (Ok service, w1).
Proof.
  assert (Hagain : forall service w1,
             service_contractId service = contractId ->
             serviceInstance w1 = Some service ->
             getDivineWrathBlockchainService host contractId w1 = (Ok service, w1)).
  { intros service w1 Hid Hinst.
    unfold getDivineWrathBlockchainService, mbind, Run_bind, read_serviceInstance.
    rewrite Hinst, Hid, String.eqb_refl. reflexivity. }
  destruct (serviceInstance w) as [instance |] eqn:Hw.
  - destruct (String.eqb_spec (service_contractId instance) contractId) as [E | N].
    + exists instance, w. repeat split; try assumption; now apply Hagain.
    + eexists _, _. split.
      { unfold getDivineWrathBlockchainService, mbind, Run_bind, read_serviceInstance.
        rewrite Hw. apply String.eqb_neq in N. rewrite N. reflexivity. }
      split; [reflexivity |]. split; [reflexivity |]. now apply Hagain.
  - eexists _, _. split.
    { unfold getDivineWrathBlockchainService, mbind, Run_bind, read_serviceInstance.
      rewrite Hw. reflexivity. }
    split; [reflexivity |]. split; [reflexivity |]. now apply Hagain.
Qed.

End ServiceProperties.

Lemma attack_checks_cell_witness :
  (0 < 1 \/ 9 < 0)
  /\ Chain.attack Chain.sample_host Chain.sample_service 7 "GOD" 0 None tt
       Chain.empty_world
     = (Throw (Error "Cell must be between 1 and 9"), Chain.empty_world).
Proof.
  assert (H : 0 < 1 \/ 9 < 0) by (left; lia).
  split; [exact H |].
  exact (attack_checks_cell Chain.sample_host Chain.sample_service
           7 "GOD" 0 None tt Chain.empty_world H).
Defined.

Lemma startGame_needs_three_mortals_witness :
  length ["M1"; "M2"] <> 3%nat
  /\ Chain.startGame Chain.sample_host Chain.sample_service 7 "GOD" ["M1"; "M2"]
       "GOD" tt Chain.empty_world
     = (Throw (Error "Exactly 3 mortals required"), Chain.empty_world).
Proof.
  assert (H : length ["M1"; "M2"] <> 3%nat) by (cbn; lia).
  split; [exact H |].
  exact (startGame_needs_three_mortals Chain.sample_host Chain.sample_service
           7 "GOD" ["M1"; "M2"] "GOD" tt Chain.empty_world H).
Defined.

Lemma malformed_proof_is_not_sent_witness :
  convertSnarkjsProofToContract
    {| Snarkjs.pi_a := ["1"]; Snarkjs.pi_b := []; Snarkjs.pi_c := [];
       Snarkjs.protocol := "groth16"; Snarkjs.curve := "bn128" |}
  = Throw TypeError
  /\ exists client,
       Chain.submitClaim Chain.sample_host Chain.sample_service 7 "M1" "row" 0 true
         {| Snarkjs.pi_a := ["1"]; Snarkjs.pi_b := []; Snarkjs.pi_c := [];
            Snarkjs.protocol := "groth16"; Snarkjs.curve := "bn128" |}
         tt Chain.empty_world
       = (Throw TypeError,
          {| Chain.serviceInstance := None; Chain.trace := [Chain.NewClient client] |})
       /\ Chain.publicKey client = Some "M1".
Proof.
  assert (H : convertSnarkjsProofToContract
                {| Snarkjs.pi_a := ["1"]; Snarkjs.pi_b := []; Snarkjs.pi_c := [];
                   Snarkjs.protocol := "groth16"; Snarkjs.curve := "bn128" |}
              = Throw TypeError) by (vm_compute; reflexivity).
  split; [exact H |].
  exact (proj1 (malformed_proof_is_not_sent Chain.sample_host Chain.sample_service
                  7 "M1" "row" 0 true _ tt "ADMIN" TypeError Chain.empty_world H)).
Defined.


(** ** Claims already made *)

Section ClaimsTaken.

Import ClaimList.

Lemma strict_equal_eq v w : strict_equal v w = true <-> v = w.
Proof.
  destruct v as [n | a], w as [m | b]; cbn [strict_equal];
    try (split; [discriminate | discriminate]).
  - rewrite Z.eqb_eq. split; [now intros -> | now intros [= ->]].
  - rewrite Bool.eqb_true_iff. split; [now intros -> | now intros [= ->]].
Qed.

(** X28: a claim is taken exactly when the very same claim (same target, same
    type, same value) is on the list; in particular the placeholder
    [true], used while no value is selected, never collides with a claim
    that carries a number. *)
Theorem isClaimTaken_iff claims target type value :
  (isClaimTaken claims target type value = true
   <-> In {| targetPlayerId := target; claimType := type; claimValue := value |}
         claims)
  /\ ((forall c, In c claims -> exists n, ClaimList.claimValue c = NumberValue n) ->
      isClaimTaken claims target type (BooleanValue true) = false).
Proof.
  assert (Hiff : forall v,
             isClaimTaken claims target type v = true
             <-> In {| targetPlayerId := target; claimType := type; claimValue := v |}
                   claims).
  { intros v. unfold isClaimTaken. rewrite existsb_exists. split.
    - intros (c & Hin & Hc).
      apply andb_prop in Hc as [Hc Hv]. apply andb_prop in Hc as [Ht Hty].
      apply String.eqb_eq in Ht, Hty. apply strict_equal_eq in Hv.
      destruct c as [t ty v']. cbn in Ht, Hty, Hv. now subst.
    - intros Hin. eexists. split; [exact Hin |]. cbn.
      rewrite !String.eqb_refl. cbn. now apply strict_equal_eq. }
  split; [apply Hiff |].
  intros Hnum. apply not_true_is_false. intros Htaken.
  apply Hiff in Htaken. destruct (Hnum _ Htaken) as [n Hn]. discriminate Hn.
Qed.

End ClaimsTaken.

Lemma isClaimTaken_iff_witness :
  (forall c,
      In c [ {| ClaimList.targetPlayerId := "p1"; ClaimList.claimType := "row";
                ClaimList.claimValue := ClaimList.NumberValue 1 |} ] ->
      exists n, ClaimList.claimValue c = ClaimList.NumberValue n)
  /\ ClaimList.isClaimTaken
       [ {| ClaimList.targetPlayerId := "p1"; ClaimList.claimType := "row";
            ClaimList.claimValue := ClaimList.NumberValue 1 |} ]
       "p1" "row" (ClaimList.BooleanValue true) = false.
Proof.
  assert (H : forall c,
             In c [ {| ClaimList.targetPlayerId := "p1"; ClaimList.claimType := "row";
                       ClaimList.claimValue := ClaimList.NumberValue 1 |} ] ->
             exists n, ClaimList.claimValue c = ClaimList.NumberValue n).
  { intros c [<- | []]. exists 1. reflexivity. }
  split; [exact H |].
  exact (proj2 (isClaimTaken_iff _ "p1" "row" (ClaimList.BooleanValue true)) H).
Defined.
